(** * Transition cost model of the map matcher (meili)

    A shallow embedding of [src/meili/transition_cost_model.cc]: the
    constructor of [TransitionCostModel], the cost functor
    [TransitionCostModel::operator()] and [TransitionCostModel::UpdateRoute],
    followed by the verification of the properties stated about them.

    Numbers.  The C++ code computes in [float].  Here a [float] is a real
    number and arithmetic is exact: rounding, NaN and the infinities are not
    part of the model.  Indices and times are natural numbers.

    Effects.  The states of the columns are mutated through [SetRoute]
    (their fields are [mutable]); the columns therefore live in an explicit
    store, the [World], which every operation threads.  A C++ exception is
    the outcome [Throw], an access outside a vector is the outcome
    [Undefined]. *)

From Stdlib Require Import String.
From Stdlib Require Import Reals List Bool Arith ZArith Lia Lra.
From Stdlib Require Import Zfloor.
From Stdlib Require DecimalString.
Import ListNotations.

Open Scope R_scope.

(** ** Exceptions and outcomes *)

Inductive exception : Type :=
| invalid_argument (what : string)
| logic_error (what : string).

Inductive Outcome (A : Type) : Type :=
| Ok (a : A)
| Throw (e : exception)
| Undefined.

Arguments Ok {A} a.
Arguments Throw {A} e.
Arguments Undefined {A}.

Definition bind {A B : Type} (x : Outcome A) (f : A -> Outcome B) : Outcome B :=
  match x with
  | Ok a => f a
  | Throw e => Throw e
  | Undefined => Undefined
  end.

Notation "x <- e1 ;; e2" := (bind e1 (fun x => e2))
  (at level 61, e1 at next level, right associativity).

(** [v[i]] on a [std::vector]: outside the vector the behaviour is undefined. *)
Definition subscript {A : Type} (v : list A) (i : nat) : Outcome A :=
  match nth_error v i with
  | Some a => Ok a
  | None => Undefined
  end.

(** Assignment [v[i] = x]; used only inside the bounds of [v]. *)
Fixpoint assign {A : Type} (v : list A) (i : nat) (x : A) : list A :=
  match v, i with
  | [], _ => []
  | _ :: t, O => x :: t
  | a :: t, S i' => a :: assign t i' x
  end.

(** ** Operations on [float] *)

(** [std::ceil] *)
Definition ceil (x : R) : R := IZR (Zceil x).

(** [std::min(a, b)]: [b] when [b < a], else [a]. *)
Definition std_min (a b : R) : R := if Rlt_dec b a then b else a.

(** [std::max(a, b)]: [b] when [a < b], else [a]. *)
Definition std_max (a b : R) : R := if Rlt_dec a b then b else a.

(** ** The model object and its constructor *)

Record TransitionCostModel : Type := {
  beta_ : R;
  inv_beta_ : R;
  breakage_distance_ : R;
  max_route_distance_factor_ : R;
  max_route_time_factor_ : R;
  turn_penalty_factor_ : R;
  turn_cost_table_ : list R
}.

(** [turn_cost_table_{0.f}]: 181 entries, all zero. *)
Definition zero_table : list R := repeat 0 181.

(** The loop [for (int i = 0; i <= 180; ++i) turn_cost_table_[i] = ...],
    with [n] iterations left from index [i]. *)
Fixpoint fill_turn_cost_table (tpf : R) (n i : nat) (table : list R) : list R :=
  match n with
  | O => table
  | S n' =>
      fill_turn_cost_table tpf n' (S i)
        (assign table i (tpf * exp (IZR (- Z.of_nat i) / 45)))
  end.

(** The constructor taking the five numeric parameters. *)
Definition construct (beta breakage_distance max_route_distance_factor
                      max_route_time_factor turn_penalty_factor : R)
  : Outcome TransitionCostModel :=
  if Rle_dec beta 0 then
    Throw (invalid_argument "Expect beta to be positive")
  else if Rlt_dec turn_penalty_factor 0 then
    Throw (invalid_argument "Expect turn penalty factor to be nonnegative")
  else
    Ok {| beta_ := beta;
          inv_beta_ := 1 / beta;
          breakage_distance_ := breakage_distance;
          max_route_distance_factor_ := max_route_distance_factor;
          max_route_time_factor_ := max_route_time_factor;
          turn_penalty_factor_ := turn_penalty_factor;
          turn_cost_table_ :=
            if Rlt_dec 0 turn_penalty_factor
            then fill_turn_cost_table turn_penalty_factor 181 0 zero_table
            else zero_table |}.

(** ** Data model *)

(** A coordinate [(lng, lat)]. *)
Definition PointLL : Type := (R * R)%type.

Record Measurement : Type := {
  lnglat : PointLL;
  epoch_time : R;
  search_radius : R
}.

Record StateId : Type := {
  time : nat;
  id : nat
}.

Definition StateId_eqb (a b : StateId) : bool :=
  Nat.eqb (time a) (time b) && Nat.eqb (id a) (id b).

(** The accumulated cost of a label: [cost().cost] and [cost().secs]. *)
Record Cost : Type := {
  cost : R;
  secs : R
}.

Record Label : Type := {
  edgeid : nat;
  predecessor : option nat;
  label_cost : Cost;
  turn_cost : R
}.

(** Modelled from the spec: the class [LabelSet] (meili/routing.h) is not in
    src/.  A label set is constructed from a ceiling and holds its labels in
    insertion order. *)
Record LabelSet : Type := {
  max_cost : R;
  labels : list Label
}.

(** Modelled from the spec: [baldr::PathLocation] is not in src/.  A
    candidate is a list of directed edges, each with a percent-along offset
    and a side-of-road flag. *)
Record PathEdge : Type := {
  path_edge_id : nat;
  percent_along : R;
  side_of_street : bool
}.

Definition PathLocation : Type := list PathEdge.

(** Modelled from the spec: the class [State] (meili/map_matching.h) is not in
    src/.  A state holds its id, its candidate, the [routed] flag, the label
    set of its route (null until routed) and the mapping from the ids of the
    right states to the index of their label in that label set. *)
Record State : Type := {
  stateid : StateId;
  candidate : PathLocation;
  routed : bool;
  labelset : option LabelSet;
  label_idx : list (StateId * nat)
}.

(** [find] on the two [unordered_map]s, as association lists. *)
Fixpoint find_dest (dest : nat) (results : list (nat * nat)) : option nat :=
  match results with
  | [] => None
  | (k, v) :: rest => if Nat.eqb k dest then Some v else find_dest dest rest
  end.

Fixpoint find_stateid (s : StateId) (idx : list (StateId * nat)) : option nat :=
  match idx with
  | [] => None
  | (k, v) :: rest => if StateId_eqb k s then Some v else find_stateid s rest
  end.

(** Modelled from the spec: the binding of the parallel list of state ids to
    the results of the expander.  Destination 0 is the origin, so the k-th
    state id is destination k+1; a destination without a result is left out. *)
Fixpoint bind_results (stateids : list StateId) (dest : nat)
                      (results : list (nat * nat)) : list (StateId * nat) :=
  match stateids with
  | [] => []
  | s :: rest =>
      match find_dest dest results with
      | Some l => (s, l) :: bind_results rest (S dest) results
      | None => bind_results rest (S dest) results
      end
  end.

(** Modelled from the spec: [State::SetRoute] is not in src/.  It marks the
    state routed, retains the label set and populates the lookup. *)
Definition SetRoute (st : State) (stateids : list StateId)
                    (results : list (nat * nat)) (ls : LabelSet) : State :=
  {| stateid := stateid st;
     candidate := candidate st;
     routed := true;
     labelset := Some ls;
     label_idx := bind_results stateids 1 results |}.

(** Modelled from the spec: [State::last_label] is not in src/.  It resolves
    a right state to its label in the label set of the left state, or to
    null when the right state has none. *)
Definition last_label (left right : State) : Outcome (option Label) :=
  match find_stateid (stateid right) (label_idx left) with
  | None => Ok None
  | Some i =>
      match labelset left with
      | Some ls => l <- subscript (labels ls) i ;; Ok (Some l)
      | None => Undefined
      end
  end.

(** The arguments of one call of [find_shortest_path]; the graph reader and
    the costing of the travel mode are fixed and left out. *)
Record ExpanderCall : Type := {
  arg_locations : list PathLocation;
  arg_origin_idx : nat;
  arg_labelset : LabelSet;
  arg_approximator : PointLL;
  arg_search_radius : R;
  arg_edgelabel : option Label;
  arg_turn_cost_table : list R;
  arg_max_dist : R;
  arg_max_time : R
}.

(** The store: the columns of the matcher, the predecessor lookup of the
    Viterbi search ([None] is the invalid state id), and the log of the
    expansions made so far, each with the id of the state it routed. *)
Record World : Type := {
  columns : list (list State);
  Predecessor : StateId -> option StateId;
  expansions : list (StateId * ExpanderCall)
}.

Definition IsValid (s : option StateId) : bool :=
  match s with Some _ => true | None => false end.

(** [get_column_(t)] *)
Definition get_column (w : World) (t : nat) : list State :=
  nth t (columns w) [].

(** The effect of a mutation of the state [get_column_(t)[i]]. *)
Definition set_state (w : World) (t i : nat) (st : State) : World :=
  {| columns := assign (columns w) t (assign (get_column w t) i st);
     Predecessor := Predecessor w;
     expansions := expansions w |}.

Definition log_expansion (w : World) (lhs : StateId) (c : ExpanderCall) : World :=
  {| columns := columns w;
     Predecessor := Predecessor w;
     expansions := expansions w ++ [(lhs, c)] |}.

(** ** The operations *)

Section Operations.

(** [PointLL::Distance], the great-circle distance. *)
Variable Distance : PointLL -> PointLL -> R.

(** [find_shortest_path] (meili/routing.h): the results, destination index to
    label index, and the label set as the expansion leaves it. *)
Variable find_shortest_path : ExpanderCall -> list (nat * nat) * LabelSet.

(** [get_measurement_] *)
Variable get_measurement : nat -> Measurement.

Definition GreatCircleDistance (left right : Measurement) : R :=
  Distance (lnglat left) (lnglat right).

Definition ClockDistance (left right : Measurement) : R :=
  epoch_time right - epoch_time left.

(** Modelled from the spec: [CalculateTransitionCost] is declared in
    meili/transition_cost_model.h, which is not in src/. *)
Definition CalculateTransitionCost (m : TransitionCostModel)
    (turn_cost route_distance measurement_distance
     route_time measurement_time : R) : R :=
  turn_cost + inv_beta_ m * (Rabs (route_distance - measurement_distance)
                             + Rabs (route_time - measurement_time)).

(** The first part of [UpdateRoute]: the inbound edge label. *)
Definition prepare_edgelabel (w : World) (left : State) : Outcome (option Label) :=
  match Predecessor w (stateid left) with
  | Some prev_stateid =>
      prev_state <- subscript (get_column w (time prev_stateid)) (id prev_stateid) ;;
      if negb (routed prev_state) then
        Throw (logic_error
          "The predecessor of current state must have been routed. Check if you have misused the TransitionCost method")
      else last_label prev_state left
  | None => Ok None
  end.

(** The states of the right column that have no predecessor yet. *)
Definition unreached_states (w : World) (right_column : list State) : list State :=
  filter (fun state => negb (IsValid (Predecessor w (stateid state)))) right_column.

(** The call of [find_shortest_path] that [UpdateRoute] makes. *)
Definition expander_call (m : TransitionCostModel) (w : World)
    (lhs rhs : StateId) (left right : State) (edgelabel : option Label)
  : ExpanderCall :=
  let right_column := get_column w (time (stateid right)) in
  let locations := candidate left :: map candidate (unreached_states w right_column) in
  let left_measurement := get_measurement (time lhs) in
  let right_measurement := get_measurement (time rhs) in
  let gc_dist := GreatCircleDistance left_measurement right_measurement in
  let max_route_distance :=
    std_min (gc_dist * max_route_distance_factor_ m) (breakage_distance_ m) in
  let clk_dist := ClockDistance left_measurement right_measurement in
  let max_route_time := clk_dist * max_route_time_factor_ m in
  {| arg_locations := locations;
     arg_origin_idx := 0;
     arg_labelset := {| max_cost := std_max (ceil max_route_distance) 1;
                        labels := [] |};
     arg_approximator := lnglat right_measurement;
     arg_search_radius := search_radius right_measurement;
     arg_edgelabel := edgelabel;
     arg_turn_cost_table := turn_cost_table_ m;
     arg_max_dist := ceil max_route_distance;
     arg_max_time := ceil max_route_time |}.

(** [TransitionCostModel::UpdateRoute] *)
Definition UpdateRoute (m : TransitionCostModel) (w : World)
    (lhs rhs : StateId) : Outcome World :=
  left <- subscript (get_column w (time lhs)) (id lhs) ;;
  right <- subscript (get_column w (time rhs)) (id lhs) ;;
  edgelabel <- prepare_edgelabel w left ;;
  let right_column := get_column w (time (stateid right)) in
  let unreached_stateids := map stateid (unreached_states w right_column) in
  let call := expander_call m w lhs rhs left right edgelabel in
  let (results, labelset) := find_shortest_path call in
  Ok (set_state (log_expansion w lhs call) (time lhs) (id lhs)
        (SetRoute left unreached_stateids results labelset)).

(** [TransitionCostModel::operator()], up to the lookup of the label: the
    left state is routed if it is not yet, and the label of the right state
    is looked up on it.  [left] and [right] are references into the columns,
    so they are read again after [UpdateRoute]. *)
Definition lookup_label (m : TransitionCostModel) (w : World)
    (lhs rhs : StateId) : Outcome (option Label * World) :=
  left <- subscript (get_column w (time lhs)) (id lhs) ;;
  right <- subscript (get_column w (time rhs)) (id lhs) ;;
  w' <- (if negb (routed left) then UpdateRoute m w lhs rhs else Ok w) ;;
  left <- subscript (get_column w' (time lhs)) (id lhs) ;;
  right <- subscript (get_column w' (time rhs)) (id lhs) ;;
  label <- last_label left right ;;
  Ok (label, w').

(** [TransitionCostModel::operator()], from the label on: the transition
    cost of a found label, [-1] when no path was found. *)
Definition cost_of_label (m : TransitionCostModel) (lhs rhs : StateId)
    (label : option Label) : R :=
  match label with
  | Some label =>
      let left_measurement := get_measurement (time lhs) in
      let right_measurement := get_measurement (time rhs) in
      CalculateTransitionCost m
        (turn_cost label)
        (cost (label_cost label))
        (GreatCircleDistance left_measurement right_measurement)
        (secs (label_cost label))
        (ClockDistance left_measurement right_measurement)
  | None => -1
  end.

(** [TransitionCostModel::operator()]: the cost and the store it leaves. *)
Definition TransitionCost (m : TransitionCostModel) (w : World)
    (lhs rhs : StateId) : Outcome (R * World) :=
  found <- lookup_label m w lhs rhs ;;
  Ok (cost_of_label m lhs rhs (fst found), snd found).

End Operations.

(** ** Runs of the matcher *)

(** What may happen to the store: the Viterbi driver asks for a transition
    cost, or it records new predecessors.  Nothing else writes to the
    columns. *)
Inductive step (Distance : PointLL -> PointLL -> R)
               (find_shortest_path : ExpanderCall -> list (nat * nat) * LabelSet)
               (get_measurement : nat -> Measurement)
               (m : TransitionCostModel) : World -> World -> Prop :=
| step_cost w lhs rhs v w' :
    TransitionCost Distance find_shortest_path get_measurement m w lhs rhs = Ok (v, w') ->
    step Distance find_shortest_path get_measurement m w w'
| step_driver w pred :
    step Distance find_shortest_path get_measurement m w
      {| columns := columns w; Predecessor := pred; expansions := expansions w |}.

Inductive steps (Distance : PointLL -> PointLL -> R)
                (find_shortest_path : ExpanderCall -> list (nat * nat) * LabelSet)
                (get_measurement : nat -> Measurement)
                (m : TransitionCostModel) : World -> World -> Prop :=
| steps_refl w : steps Distance find_shortest_path get_measurement m w w
| steps_step w1 w2 w3 :
    steps Distance find_shortest_path get_measurement m w1 w2 ->
    step Distance find_shortest_path get_measurement m w2 w3 ->
    steps Distance find_shortest_path get_measurement m w1 w3.

(** The state a state id identifies. *)
Definition state_of (w : World) (s : StateId) : Outcome State :=
  subscript (get_column w (time s)) (id s).

(** The number of expansions logged for a left state. *)
Definition expansions_of (w : World) (lhs : StateId) : nat :=
  length (filter (fun e => StateId_eqb (fst e) lhs) (expansions w)).

(** A left state has no expansion in the log, or it has exactly one and is
    routed. *)
Definition routed_once (w : World) : Prop :=
  forall s,
    expansions_of w s = 0%nat
    \/ (expansions_of w s = 1%nat
        /\ exists st, state_of w s = Ok st /\ routed st = true).


(** ** A small trace *)

(** Measurements 100 m and 10 s apart on a line. *)
Definition line_Distance (a b : PointLL) : R := Rabs (fst b - fst a).

Definition line_measurement (t : nat) : Measurement :=
  {| lnglat := (100 * INR t, 0);
     epoch_time := 10 * INR t;
     search_radius := 50 |}.

Definition fresh_state (t i : nat) : State :=
  {| stateid := {| time := t; id := i |};
     candidate := [{| path_edge_id := 10 * t + i;
                      percent_along := 1 / 2;
                      side_of_street := false |}];
     routed := false;
     labelset := None;
     label_idx := [] |}.

(** Two columns of two candidates each, nothing routed, no predecessors. *)
Definition two_columns : World :=
  {| columns := [[fresh_state 0 0; fresh_state 0 1];
                 [fresh_state 1 0; fresh_state 1 1]];
     Predecessor := fun _ => None;
     expansions := [] |}.

(** A label of a route that matches the straight line. *)
Definition straight_label : Label :=
  {| edgeid := 7;
     predecessor := None;
     label_cost := {| cost := 100; secs := 10 |};
     turn_cost := 0 |}.

(** A label of a detour: 250 m and 20 s. *)
Definition detour_label : Label :=
  {| edgeid := 8;
     predecessor := None;
     label_cost := {| cost := 250; secs := 20 |};
     turn_cost := 0 |}.

(** An expander that reaches every destination, with the label [l]. *)
Definition reach_all (l : Label) (c : ExpanderCall) : list (nat * nat) * LabelSet :=
  let n := Nat.pred (length (arg_locations c)) in
  (map (fun k => (S k, k)) (seq 0 n),
   {| max_cost := max_cost (arg_labelset c); labels := repeat l n |}).

(** An expander that reaches destination [dest] only, with the label [l]. *)
Definition reach_only (dest : nat) (l : Label) (c : ExpanderCall)
  : list (nat * nat) * LabelSet :=
  ([(dest, 0%nat)],
   {| max_cost := max_cost (arg_labelset c); labels := [l] |}).

(** An expander that reaches the first destination with the label [l1] and
    the second with the label [l2]. *)
Definition reach_both (l1 l2 : Label) (c : ExpanderCall)
  : list (nat * nat) * LabelSet :=
  ([(1%nat, 0%nat); (2%nat, 1%nat)],
   {| max_cost := max_cost (arg_labelset c); labels := [l1; l2] |}).

(** The model constructed with beta 5, breakage distance 50.5, both factors 2
    and no turn penalty. *)
Definition small_model : TransitionCostModel :=
  {| beta_ := 5;
     inv_beta_ := 1 / 5;
     breakage_distance_ := 101 / 2;
     max_route_distance_factor_ := 2;
     max_route_time_factor_ := 2;
     turn_penalty_factor_ := 0;
     turn_cost_table_ := zero_table |}.

Definition s00 : StateId := {| time := 0; id := 0 |}.
Definition s01 : StateId := {| time := 0; id := 1 |}.
Definition s10 : StateId := {| time := 1; id := 0 |}.
Definition s11 : StateId := {| time := 1; id := 1 |}.

(** Three columns, where the predecessor of the state (1,0) is the state
    (0,0), which is not routed. *)
Definition unrouted_predecessor : World :=
  {| columns := [[fresh_state 0 0; fresh_state 0 1];
                 [fresh_state 1 0; fresh_state 1 1];
                 [fresh_state 2 0]];
     Predecessor := fun s => if StateId_eqb s s10 then Some s00 else None;
     expansions := [] |}.

Definition s20 : StateId := {| time := 2; id := 0 |}.

(** The same place at every time: coincident measurements. *)
Definition still_measurement (t : nat) : Measurement :=
  {| lnglat := (0, 0);
     epoch_time := 10 * INR t;
     search_radius := 50 |}.

(** Three columns, nothing routed, no predecessors. *)
Definition three_columns : World :=
  {| columns := columns unrouted_predecessor;
     Predecessor := fun _ => None;
     expansions := [] |}.

(** The three columns after the cost from (0,0) to (1,0) has routed the
    state (0,0) and the driver has recorded (0,0) as the predecessor of
    (1,0). *)
Definition routed_predecessor : World :=
  match TransitionCost line_Distance (reach_all straight_label) line_measurement
          small_model three_columns s00 s10 with
  | Ok (_, w) =>
      {| columns := columns w;
         Predecessor := fun s => if StateId_eqb s s10 then Some s00 else None;
         expansions := expansions w |}
  | _ => three_columns
  end.

(** Two columns where every state of the second column has a predecessor. *)
Definition all_reached : World :=
  {| columns := columns two_columns;
     Predecessor := fun s => if Nat.eqb (time s) 1 then Some s01 else None;
     expansions := [] |}.

(** Measurements with one time stamp, 100 m apart. *)
Definition instant_measurement (t : nat) : Measurement :=
  {| lnglat := (100 * INR t, 0);
     epoch_time := 30;
     search_radius := 50 |}.

(** A model whose breakage distance is negative. *)
Definition negative_breakage_model : TransitionCostModel :=
  {| beta_ := 5;
     inv_beta_ := 1 / 5;
     breakage_distance_ := - (7 / 2);
     max_route_distance_factor_ := 2;
     max_route_time_factor_ := 2;
     turn_penalty_factor_ := 0;
     turn_cost_table_ := zero_table |}.

(** * The common command line arguments

    [parse_common_args], shared by the executables.  What it reads and
    writes outside its arguments is explicit: the text on [std::cout], the
    global configuration, the calls of [logging::Configure] and the lines of
    [LOG_INFO].  The libraries it calls are the fields of an [Environment]. *)

Record Environment : Type := {
  (** [boost::property_tree::ptree] *)
  ptree : Type;
  (** the map given to [logging::Configure] *)
  logging_config : Type;
  (** what [configure] and [config] may throw *)
  library_error : Type;
  (** the state behind [valhalla::configuration::configure] and
      [valhalla::config] *)
  configuration : Type;
  configure : string -> configuration -> configuration + library_error;
  config : configuration -> ptree + library_error;
  (** [ptree::get_child_optional] *)
  get_child_optional : ptree -> string -> option ptree;
  (** [midgard::ToMap] *)
  ToMap : ptree -> logging_config;
  (** [ptree::get_optional<uint32_t>] *)
  get_uint32 : ptree -> string -> option N;
  (** [ptree::put<uint32_t>] *)
  put_uint32 : ptree -> string -> N -> ptree;
  (** [filesystem::is_regular_file] *)
  is_regular_file : string -> bool;
  (** [std::thread::hardware_concurrency()] *)
  hardware_concurrency : N;
  VALHALLA_VERSION : string
}.

(** What the function reads of the [cxxopts::ParseResult]. *)
Record ParseResult : Type := {
  count : string -> nat;
  as_string : string -> string;
  as_uint32 : string -> N
}.

Record Process (env : Environment) : Type := {
  stdout : string;
  global : configuration env;
  logging : list (logging_config env);
  info : list string
}.

Arguments stdout {env} _.
Arguments global {env} _.
Arguments logging {env} _.
Arguments info {env} _.

(** How a call ends: it returns, or it throws the [cxxopts::OptionException]
    or what a library has thrown. *)
Inductive Completion (env : Environment) : Type :=
| Returned (b : bool)
| ThrewOptionException (what : string)
| ThrewLibraryError (e : library_error env).

Arguments Returned {env} b.
Arguments ThrewOptionException {env} what.
Arguments ThrewLibraryError {env} e.

Definition newline : string := String (Ascii.ascii_of_nat 10) EmptyString.

(** [std::to_string] of an unsigned number. *)
Definition to_string (n : N) : string :=
  DecimalString.NilEmpty.string_of_uint (N.to_uint n).

(** [std::max(a, b)] on [uint32_t]. *)
Definition std_max_u32 (a b : N) : N := if N.ltb a b then b else a.

(** [ptree::get<uint32_t>(path, default)] *)
Definition get_uint32_or (env : Environment) (conf : ptree env) (path : string)
                         (default : N) : N :=
  match get_uint32 env conf path with
  | Some v => v
  | None => default
  end.

Definition print {env : Environment} (p : Process env) (text : string) : Process env :=
  {| stdout := (stdout p ++ text)%string;
     global := global p;
     logging := logging p;
     info := info p |}.

Definition set_global {env : Environment} (p : Process env) (g : configuration env)
  : Process env :=
  {| stdout := stdout p; global := g; logging := logging p; info := info p |}.

Definition logging_Configure {env : Environment} (p : Process env)
                             (c : logging_config env) : Process env :=
  {| stdout := stdout p;
     global := global p;
     logging := logging p ++ [c];
     info := info p |}.

Definition LOG_INFO {env : Environment} (p : Process env) (line : string)
  : Process env :=
  {| stdout := stdout p;
     global := global p;
     logging := logging p;
     info := info p ++ [line] |}.

(** [parse_common_args] from [auto conf = valhalla::config()] on.  [conf] is
    a local tree, and so is the tree that [put] leaves. *)
Definition configure_logging_and_threads (env : Environment) (program : string)
    (result : ParseResult) (log : string) (use_threads : bool) (p : Process env)
  : Completion env * Process env :=
  match config env (global p) with
  | inr e => (ThrewLibraryError e, p)
  | inl conf =>
      let p :=
        match get_child_optional env conf log with
        | Some logging_subtree => logging_Configure p (ToMap env logging_subtree)
        | None => p
        end in
      if use_threads then
        let num_threads :=
          std_max_u32 1
            (if negb (Nat.eqb (count result "concurrency") 0)
             then as_uint32 result "concurrency"
             else get_uint32_or env conf "mjolnir.concurrency"
                    (hardware_concurrency env)) in
        let conf := put_uint32 env conf "mjolnir.concurrency" num_threads in
        (Returned true,
         LOG_INFO p ("Running " ++ program ++ " with " ++ to_string num_threads
                     ++ " thread(s).")%string)
      else (Returned true, p)
  end.

(** The call [configure(source)] and what follows it. *)
Definition configure_from (env : Environment) (program : string)
    (result : ParseResult) (log : string) (use_threads : bool)
    (source : string) (p : Process env) : Completion env * Process env :=
  match configure env source (global p) with
  | inr e => (ThrewLibraryError e, p)
  | inl g =>
      configure_logging_and_threads env program result log use_threads
        (set_global p g)
  end.

(** [parse_common_args]; [help] is the text of [opts.help()]. *)
Definition parse_common_args (env : Environment) (program : string)
    (help : string) (result : ParseResult) (log : string) (use_threads : bool)
    (p : Process env) : Completion env * Process env :=
  if negb (Nat.eqb (count result "help") 0) then
    (Returned false, print p (help ++ newline))
  else if negb (Nat.eqb (count result "version") 0) then
    (Returned false,
     print p (program ++ " " ++ VALHALLA_VERSION env ++ newline))
  else if negb (Nat.eqb (count result "inline-config") 0) then
    configure_from env program result log use_threads
      (as_string result "inline-config") p
  else if negb (Nat.eqb (count result "config") 0)
          && is_regular_file env (as_string result "config") then
    configure_from env program result log use_threads
      (as_string result "config") p
  else
    (ThrewOptionException
       ("Configuration is required" ++ newline ++ newline ++ help
        ++ newline ++ newline),
     p).

(** A toy environment: a tree is a list of paths with numbers, [configure]
    reads the file valhalla.json, whose concurrency is 0, and takes any
    other source for an empty tree with a logging node. *)
Definition toy_environment : Environment :=
  {| ptree := list (string * N);
     logging_config := list (string * N);
     library_error := string;
     configuration := list (string * N);
     configure := fun source _ =>
       if String.eqb source "valhalla.json"
       then inl [("mjolnir.concurrency"%string, 0%N)]
       else inl [("logging"%string, 1%N)];
     config := fun g => inl g;
     get_child_optional := fun conf path =>
       if existsb (fun kv => String.eqb (fst kv) path) conf
       then Some conf else None;
     ToMap := fun t => t;
     get_uint32 := fun conf path =>
       option_map snd (find (fun kv => String.eqb (fst kv) path) conf);
     put_uint32 := fun conf path v => (path, v) :: conf;
     is_regular_file := fun path => String.eqb path "valhalla.json";
     hardware_concurrency := 8;
     VALHALLA_VERSION := "3.1.4" |}.

Definition fresh_process : Process toy_environment :=
  Build_Process toy_environment "" [] [] [].

(** The command line [--config valhalla.json]. *)
Definition config_only : ParseResult :=
  {| count := fun o => if String.eqb o "config" then 1%nat else 0%nat;
     as_string := fun _ => "valhalla.json"%string;
     as_uint32 := fun _ => 0%N |}.

(** The command line [--config missing.json]. *)
Definition config_missing : ParseResult :=
  {| count := fun o => if String.eqb o "config" then 1%nat else 0%nat;
     as_string := fun _ => "missing.json"%string;
     as_uint32 := fun _ => 0%N |}.

(** The command line [--help --version]. *)
Definition help_and_version : ParseResult :=
  {| count := fun o => if String.eqb o "help" || String.eqb o "version"
                       then 1%nat else 0%nat;
     as_string := fun _ => ""%string;
     as_uint32 := fun _ => 0%N |}.

(** * Verification *)

(** ** Vectors *)

Lemma length_assign {A : Type} (v : list A) (i : nat) (x : A) :
  length (assign v i x) = length v.
Proof.
  revert i; induction v as [|a v IH]; intros [|i]; simpl; auto.
Qed.

Lemma nth_error_assign_same {A : Type} (v : list A) (i : nat) (x : A) :
  (i < length v)%nat -> nth_error (assign v i x) i = Some x.
Proof.
  revert i; induction v as [|a v IH]; intros [|i] H; simpl in *; try lia; auto.
  apply IH; lia.
Qed.

Lemma nth_error_assign_other {A : Type} (v : list A) (i j : nat) (x : A) :
  i <> j -> nth_error (assign v i x) j = nth_error v j.
Proof.
  revert i j; induction v as [|a v IH]; intros [|i] [|j] H; simpl; auto.
  congruence.
Qed.

Lemma nth_assign_same {A : Type} (v : list A) (i : nat) (x d : A) :
  (i < length v)%nat -> nth i (assign v i x) d = x.
Proof.
  intro H. apply nth_error_nth. now apply nth_error_assign_same.
Qed.

Lemma nth_assign_other {A : Type} (v : list A) (i j : nat) (x d : A) :
  i <> j -> nth j (assign v i x) d = nth j v d.
Proof.
  revert i j; induction v as [|a v IH]; intros [|i] [|j] H; simpl; auto.
  congruence.
Qed.

Lemma subscript_Ok {A : Type} (v : list A) (i : nat) (a : A) :
  subscript v i = Ok a <-> nth_error v i = Some a.
Proof.
  unfold subscript. destruct (nth_error v i); split; congruence.
Qed.

(** ** [float] operations *)

Lemma ceil_ge x : x <= ceil x.
Proof. unfold ceil. generalize (Zceil_bound x). lra. Qed.

Lemma ceil_lt x : ceil x < x + 1.
Proof. unfold ceil. generalize (Zceil_bound x). lra. Qed.

Lemma ceil_le x y : x <= y -> ceil x <= ceil y.
Proof. intro H. unfold ceil. apply IZR_le. now apply Zceil_le. Qed.

Lemma ceil_eq (z : Z) x : IZR z - 1 < x <= IZR z -> ceil x = IZR z.
Proof. intro H. unfold ceil. f_equal. now apply Zceil_eq. Qed.

Lemma std_min_le_r a b : std_min a b <= b.
Proof. unfold std_min. destruct (Rlt_dec b a); lra. Qed.

Lemma std_min_le_l a b : std_min a b <= a.
Proof. unfold std_min. destruct (Rlt_dec b a); lra. Qed.

Lemma std_max_ge_r a b : b <= std_max a b.
Proof. unfold std_max. destruct (Rlt_dec a b); lra. Qed.

Lemma std_max_ge_l a b : a <= std_max a b.
Proof. unfold std_max. destruct (Rlt_dec a b); lra. Qed.

(** ** The turn cost table *)

Lemma length_fill_turn_cost_table tpf n i table :
  length (fill_turn_cost_table tpf n i table) = length table.
Proof.
  revert i table; induction n as [|n IH]; intros i table; simpl; auto.
  now rewrite IH, length_assign.
Qed.

Lemma nth_fill_below tpf n i table j :
  (j < i)%nat ->
  nth j (fill_turn_cost_table tpf n i table) 0 = nth j table 0.
Proof.
  revert i table; induction n as [|n IH]; intros i table H; simpl; auto.
  rewrite IH by lia. apply nth_assign_other. lia.
Qed.

Lemma nth_fill_turn_cost_table tpf n i table j :
  (i + n <= length table)%nat -> (i <= j < i + n)%nat ->
  nth j (fill_turn_cost_table tpf n i table) 0
  = tpf * exp (IZR (- Z.of_nat j) / 45).
Proof.
  revert i table; induction n as [|n IH]; intros i table Hlen Hj; simpl.
  - lia.
  - destruct (Nat.eq_dec i j) as [->|Hne].
    + rewrite nth_fill_below by lia. apply nth_assign_same. lia.
    + apply IH; [rewrite length_assign|]; lia.
Qed.

Lemma nth_zero_table j : nth j zero_table 0 = 0.
Proof.
  unfold zero_table. destruct (Nat.lt_ge_cases j 181) as [H|H].
  - apply nth_repeat.
  - apply nth_overflow. now rewrite repeat_length.
Qed.

(** What the constructor leaves in the table. *)
Lemma construct_table beta bd df tf tpf m :
  construct beta bd df tf tpf = Ok m ->
  0 < beta /\ 0 <= tpf /\ turn_penalty_factor_ m = tpf /\
  inv_beta_ m = 1 / beta /\
  length (turn_cost_table_ m) = 181%nat /\
  forall i, (i <= 180)%nat ->
            nth i (turn_cost_table_ m) 0 = tpf * exp (IZR (- Z.of_nat i) / 45).
Proof.
  unfold construct.
  assert (Hl := length_fill_turn_cost_table tpf 181 0 zero_table).
  assert (Hn := nth_fill_turn_cost_table tpf 181 0 zero_table).
  revert Hl Hn. generalize (fill_turn_cost_table tpf 181 0 zero_table).
  intros table Hl Hn.
  destruct (Rle_dec beta 0) as [Hb|Hb]; [discriminate|].
  destruct (Rlt_dec tpf 0) as [Ht|Ht]; [discriminate|].
  intro H; injection H as <-; cbn [turn_cost_table_ turn_penalty_factor_ inv_beta_].
  split; [lra|]. split; [lra|]. split; [reflexivity|]. split; [reflexivity|].
  destruct (Rlt_dec 0 tpf) as [Hp|Hp].
  - split.
    + rewrite Hl. reflexivity.
    + intros i Hi. apply Hn; simpl; lia.
  - split; [reflexivity|].
    intros i _. rewrite nth_zero_table.
    assert (tpf = 0) as -> by lra. now rewrite Rmult_0_l.
Qed.

Lemma construct_succeeds beta bd df tf tpf :
  0 < beta -> 0 <= tpf -> exists m, construct beta bd df tf tpf = Ok m.
Proof.
  intros Hb Ht. unfold construct.
  destruct (Rle_dec beta 0) as [H|_]; [lra|].
  destruct (Rlt_dec tpf 0) as [H|_]; [lra|].
  eexists; reflexivity.
Qed.

Lemma construct_small_model :
  construct 5 (101 / 2) 2 2 0 = Ok small_model.
Proof.
  unfold construct, small_model.
  destruct (Rle_dec 5 0) as [H|_]; [lra|].
  destruct (Rlt_dec 0 0) as [H|_]; [lra|].
  reflexivity.
Qed.

(** C4: the construction fails with an invalid-argument error exactly when
    [beta <= 0] or [turn_penalty_factor < 0], and succeeds exactly when
    [beta > 0] and [turn_penalty_factor >= 0]. *)
Theorem construct_fails_iff beta bd df tf tpf :
  ((exists what, construct beta bd df tf tpf = Throw (invalid_argument what))
   <-> (beta <= 0 \/ tpf < 0))
  /\ ((exists m, construct beta bd df tf tpf = Ok m)
      <-> (beta > 0 /\ tpf >= 0)).
Proof.
  unfold construct.
  destruct (Rle_dec beta 0) as [Hb|Hb].
  - split; split.
    + intros _; now left.
    + intros _; eexists; reflexivity.
    + intros [m H]; discriminate.
    + intros [H _]; lra.
  - destruct (Rlt_dec tpf 0) as [Ht|Ht].
    + split; split.
      * intros _; now right.
      * intros _; eexists; reflexivity.
      * intros [m H]; discriminate.
      * intros [_ H]; lra.
    + split; split.
      * intros [what H]; discriminate.
      * intros [H|H]; lra.
      * intros _; split; lra.
      * intros _; eexists; reflexivity.
Qed.

(** C5: after a successful construction the entry [i] of the turn cost
    table, for [i] in [0, 180], is [turn_penalty_factor * exp(-i/45)]; the
    entry 0 is the factor, the entry 180 is the factor times [exp(-4)], the
    table does not increase with the index, and it is zero throughout when
    the factor is zero. *)
Theorem turn_cost_table_shape beta bd df tf tpf m :
  construct beta bd df tf tpf = Ok m ->
  length (turn_cost_table_ m) = 181%nat
  /\ (forall i, (i <= 180)%nat ->
        nth i (turn_cost_table_ m) 0 = tpf * exp (- INR i / 45))
  /\ nth 0 (turn_cost_table_ m) 0 = tpf
  /\ nth 180 (turn_cost_table_ m) 0 = tpf * exp (- 4)
  /\ (forall i j, (i <= j <= 180)%nat ->
        nth j (turn_cost_table_ m) 0 <= nth i (turn_cost_table_ m) 0)
  /\ (tpf = 0 -> forall i, (i <= 180)%nat -> nth i (turn_cost_table_ m) 0 = 0).
Proof.
  intro H. destruct (construct_table _ _ _ _ _ _ H) as (Hb & Ht & _ & _ & Hlen & Hnth).
  assert (Hexp : forall i, IZR (- Z.of_nat i) / 45 = - INR i / 45).
  { intro i. now rewrite opp_IZR, <- INR_IZR_INZ. }
  split; [exact Hlen|]. split.
  { intros i Hi. rewrite Hnth by exact Hi. now rewrite Hexp. }
  split.
  { rewrite Hnth by lia. simpl. replace (0 / 45) with 0 by lra.
    rewrite exp_0. lra. }
  split.
  { rewrite Hnth by lia. f_equal. f_equal. simpl. lra. }
  split.
  { intros i j Hij. rewrite !Hnth by lia. rewrite !Hexp.
    apply Rmult_le_compat_l; [exact Ht|].
    assert (INR i <= INR j) by (apply le_INR; lia).
    destruct (Req_dec (INR i) (INR j)) as [->|Hne]; [lra|].
    left. apply exp_increasing. lra. }
  intros -> i Hi. rewrite Hnth by exact Hi. lra.
Qed.

(** The table of a model with the turn penalty factor 3. *)
Lemma turn_cost_table_shape_witness :
  exists m, construct 5 (101 / 2) 2 2 3 = Ok m
  /\ length (turn_cost_table_ m) = 181%nat
  /\ (forall i, (i <= 180)%nat ->
        nth i (turn_cost_table_ m) 0 = 3 * exp (- INR i / 45))
  /\ nth 0 (turn_cost_table_ m) 0 = 3
  /\ nth 180 (turn_cost_table_ m) 0 = 3 * exp (- 4)
  /\ (forall i j, (i <= j <= 180)%nat ->
        nth j (turn_cost_table_ m) 0 <= nth i (turn_cost_table_ m) 0)
  /\ (3 = 0 -> forall i, (i <= 180)%nat -> nth i (turn_cost_table_ m) 0 = 0).
Proof.
  assert (H : exists m, construct 5 (101 / 2) 2 2 3 = Ok m).
  { apply construct_succeeds; lra. }
  destruct H as [m H]. exists m. split; [exact H|].
  exact (turn_cost_table_shape 5 (101 / 2) 2 2 3 m H).
Defined.

(** ** The store *)

Lemma get_column_set_state_same w t i st :
  get_column (set_state w t i st) t = assign (get_column w t) i st.
Proof.
  unfold get_column, set_state; cbn [columns].
  destruct (Nat.lt_ge_cases t (length (columns w))) as [H|H].
  - now apply nth_assign_same.
  - assert (Hn : nth t (columns w) [] = []) by now apply nth_overflow.
    unfold get_column. rewrite Hn.
    rewrite nth_overflow; [reflexivity|]. now rewrite length_assign.
Qed.

Lemma get_column_set_state_other w t i st t' :
  t <> t' -> get_column (set_state w t i st) t' = get_column w t'.
Proof.
  intro H. unfold get_column, set_state; cbn [columns].
  now apply nth_assign_other.
Qed.

Lemma subscript_set_state_same w t i st left :
  subscript (get_column w t) i = Ok left ->
  subscript (get_column (set_state w t i st) t) i = Ok st.
Proof.
  intro H. apply subscript_Ok in H. apply subscript_Ok.
  rewrite get_column_set_state_same. apply nth_error_assign_same.
  apply nth_error_Some. congruence.
Qed.

Lemma subscript_set_state_other w t i st t' i' :
  t <> t' \/ i <> i' ->
  subscript (get_column (set_state w t i st) t') i' = subscript (get_column w t') i'.
Proof.
  intro H. destruct (Nat.eq_dec t t') as [<-|Ht].
  - rewrite get_column_set_state_same. unfold subscript.
    rewrite nth_error_assign_other; [reflexivity|]. destruct H; congruence.
  - now rewrite get_column_set_state_other.
Qed.


(** ** [UpdateRoute] *)

Section Route.

Variable D : PointLL -> PointLL -> R.
Variable fsp : ExpanderCall -> list (nat * nat) * LabelSet.
Variable gm : nat -> Measurement.

(** A call of [UpdateRoute] that returns has found both states and an edge
    label, has called the expander once and has set the route of the left
    state. *)
Lemma UpdateRoute_Ok m w lhs rhs w' :
  UpdateRoute D fsp gm m w lhs rhs = Ok w' <->
  exists left right edgelabel,
    subscript (get_column w (time lhs)) (id lhs) = Ok left
    /\ subscript (get_column w (time rhs)) (id lhs) = Ok right
    /\ prepare_edgelabel w left = Ok edgelabel
    /\ w' = set_state
              (log_expansion w lhs (expander_call D gm m w lhs rhs left right edgelabel))
              (time lhs) (id lhs)
              (SetRoute left
                 (map stateid (unreached_states w (get_column w (time (stateid right)))))
                 (fst (fsp (expander_call D gm m w lhs rhs left right edgelabel)))
                 (snd (fsp (expander_call D gm m w lhs rhs left right edgelabel)))).
Proof.
  unfold UpdateRoute. split.
  - destruct (subscript (get_column w (time lhs)) (id lhs)) as [left| |];
      try discriminate.
    destruct (subscript (get_column w (time rhs)) (id lhs)) as [right| |];
      try discriminate.
    cbn [bind].
    destruct (prepare_edgelabel w left) as [edgelabel| |] eqn:Hel;
      try discriminate.
    cbn [bind].
    destruct (fsp (expander_call D gm m w lhs rhs left right edgelabel))
      as [results ls] eqn:E.
    intro H; injection H as <-.
    exists left, right, edgelabel. rewrite E. cbn [fst snd]. repeat split; assumption.
  - intros (left & right & edgelabel & -> & -> & Hel & ->). cbn [bind].
    rewrite Hel. cbn [bind].
    now destruct (fsp (expander_call D gm m w lhs rhs left right edgelabel)).
Qed.

(** The call that a returning [UpdateRoute] logs. *)
Lemma UpdateRoute_call m w lhs rhs w' :
  UpdateRoute D fsp gm m w lhs rhs = Ok w' ->
  exists left right edgelabel,
    subscript (get_column w (time lhs)) (id lhs) = Ok left
    /\ subscript (get_column w (time rhs)) (id lhs) = Ok right
    /\ prepare_edgelabel w left = Ok edgelabel
    /\ expansions w'
       = expansions w ++ [(lhs, expander_call D gm m w lhs rhs left right edgelabel)].
Proof.
  intro H. apply UpdateRoute_Ok in H.
  destruct H as (left & right & edgelabel & Hl & Hr & Hel & ->).
  exists left, right, edgelabel. auto.
Qed.

(** [UpdateRoute] returns whenever both states are there and the edge label
    is prepared without a fault. *)
Lemma UpdateRoute_returns m w lhs rhs left right edgelabel :
  subscript (get_column w (time lhs)) (id lhs) = Ok left ->
  subscript (get_column w (time rhs)) (id lhs) = Ok right ->
  prepare_edgelabel w left = Ok edgelabel ->
  exists w',
    UpdateRoute D fsp gm m w lhs rhs = Ok w'
    /\ expansions w'
       = expansions w ++ [(lhs, expander_call D gm m w lhs rhs left right edgelabel)].
Proof.
  intros Hl Hr Hel. eexists. split.
  - apply UpdateRoute_Ok. exists left, right, edgelabel. repeat split; eassumption.
  - reflexivity.
Qed.

(** C6, amended: the distance ceiling passed to the expander is
    [ceil(min(gc_dist * max_route_distance_factor, breakage_distance))]; it
    never exceeds [ceil(breakage_distance)] and stays below
    [breakage_distance + 1]. *)
Theorem distance_ceiling m w lhs rhs w' :
  UpdateRoute D fsp gm m w lhs rhs = Ok w' ->
  exists c,
    expansions w' = expansions w ++ [(lhs, c)]
    /\ arg_max_dist c
       = ceil (std_min (GreatCircleDistance D (gm (time lhs)) (gm (time rhs))
                        * max_route_distance_factor_ m)
                       (breakage_distance_ m))
    /\ arg_max_dist c <= ceil (breakage_distance_ m)
    /\ arg_max_dist c < breakage_distance_ m + 1.
Proof.
  intro H. destruct (UpdateRoute_call _ _ _ _ _ H)
    as (left & right & edgelabel & _ & _ & _ & He).
  eexists. split; [exact He|]. cbn [expander_call arg_max_dist].
  split; [reflexivity|]. split.
  - apply ceil_le, std_min_le_r.
  - eapply Rlt_le_trans; [apply ceil_lt|].
    apply Rplus_le_compat_r, std_min_le_r.
Qed.

(** C7: the capacity given to the label set is
    [max(ceil(min(gc_dist * max_route_distance_factor, breakage_distance)), 1)];
    it is at least 1, it is 1 when the measurements coincide, and the
    expander is invoked whatever the distance is. *)
Theorem labelset_capacity m w lhs rhs left right edgelabel :
  subscript (get_column w (time lhs)) (id lhs) = Ok left ->
  subscript (get_column w (time rhs)) (id lhs) = Ok right ->
  prepare_edgelabel w left = Ok edgelabel ->
  exists w' c,
    UpdateRoute D fsp gm m w lhs rhs = Ok w'
    /\ expansions w' = expansions w ++ [(lhs, c)]
    /\ max_cost (arg_labelset c)
       = std_max (ceil (std_min (GreatCircleDistance D (gm (time lhs)) (gm (time rhs))
                                 * max_route_distance_factor_ m)
                                (breakage_distance_ m)))
                 1
    /\ 1 <= max_cost (arg_labelset c)
    /\ (GreatCircleDistance D (gm (time lhs)) (gm (time rhs)) = 0 ->
        max_cost (arg_labelset c) = 1).
Proof.
  intros Hl Hr Hel.
  destruct (UpdateRoute_returns m w lhs rhs left right edgelabel Hl Hr Hel)
    as (w' & Hu & He).
  exists w'. eexists. split; [exact Hu|]. split; [exact He|].
  cbn [expander_call arg_labelset max_cost].
  split; [reflexivity|]. split; [apply std_max_ge_r|].
  intros ->. rewrite Rmult_0_l.
  assert (Hc : ceil (std_min 0 (breakage_distance_ m)) <= 0).
  { replace 0 with (ceil 0) at 2 by (apply (ceil_eq 0); lra).
    apply ceil_le, std_min_le_l. }
  unfold std_max. destruct (Rlt_dec _ 1); lra.
Qed.

Lemma subscript_no_Throw {A : Type} (v : list A) i e : subscript v i <> Throw e.
Proof. unfold subscript. destruct (nth_error v i); discriminate. Qed.

Lemma last_label_no_Throw left right e : last_label left right <> Throw e.
Proof.
  unfold last_label. intro H.
  destruct (find_stateid _ _); [|discriminate H].
  destruct (labelset left); [|discriminate H].
  unfold subscript in H. destruct (nth_error _ _); discriminate H.
Qed.

(** The preparation of the edge label faults exactly on a predecessor that
    is not routed. *)
Lemma prepare_edgelabel_Throw w left :
  (exists what, prepare_edgelabel w left = Throw (logic_error what)) <->
  exists prev prev_state,
    Predecessor w (stateid left) = Some prev
    /\ state_of w prev = Ok prev_state
    /\ routed prev_state = false.
Proof.
  unfold prepare_edgelabel, state_of.
  destruct (Predecessor w (stateid left)) as [prev|].
  - destruct (subscript (get_column w (time prev)) (id prev))
      as [prev_state| |] eqn:Hp; cbn [bind].
    + destruct (routed prev_state) eqn:Hr; cbn [negb].
      * split.
        -- intros [what H]. now apply last_label_no_Throw in H.
        -- intros (p & ps & Hpp & Hps & Hf).
           injection Hpp as <-. rewrite Hp in Hps. injection Hps as <-.
           congruence.
      * split.
        -- intros _. exists prev, prev_state. auto.
        -- intros _. eexists; reflexivity.
    + now apply subscript_no_Throw in Hp.
    + split; [intros [what H]; discriminate|].
      intros (p & ps & Hpp & Hps & _). injection Hpp as <-.
      rewrite Hp in Hps. discriminate.
  - split; [intros [what H]; discriminate|].
    intros (p & ps & Hpp & _). discriminate.
Qed.

(** C8: [UpdateRoute] raises the logic error exactly when the predecessor of
    the left state is valid and its state is not routed; without a
    predecessor no error is raised and the expander is given a null edge
    label. *)
Theorem predecessor_must_be_routed m w lhs rhs left right :
  subscript (get_column w (time lhs)) (id lhs) = Ok left ->
  subscript (get_column w (time rhs)) (id lhs) = Ok right ->
  ((exists what, UpdateRoute D fsp gm m w lhs rhs = Throw (logic_error what))
   <-> (exists prev prev_state,
          Predecessor w (stateid left) = Some prev
          /\ state_of w prev = Ok prev_state
          /\ routed prev_state = false))
  /\ (Predecessor w (stateid left) = None ->
      exists w' c,
        UpdateRoute D fsp gm m w lhs rhs = Ok w'
        /\ expansions w' = expansions w ++ [(lhs, c)]
        /\ arg_edgelabel c = None).
Proof.
  intros Hl Hr. split.
  - rewrite <- prepare_edgelabel_Throw.
    unfold UpdateRoute. rewrite Hl, Hr. cbn [bind].
    destruct (prepare_edgelabel w left) as [el|e|]; cbn [bind].
    + destruct (fsp _).
      split; intros [what H]; discriminate.
    + split; intros [what H]; exists what; congruence.
    + split; intros [what H]; discriminate.
  - intro Hp.
    assert (Hel : prepare_edgelabel w left = Ok None).
    { unfold prepare_edgelabel. now rewrite Hp. }
    destruct (UpdateRoute_returns m w lhs rhs left right None Hl Hr Hel)
      as (w' & Hu & He).
    exists w'. eexists. split; [exact Hu|]. split; [exact He|]. reflexivity.
Qed.

(** *** The budgets and the edge label of an expansion *)

Lemma ceil_0 : ceil 0 = 0.
Proof. apply (ceil_eq 0); lra. Qed.

(** The time ceiling passed to the expander is
    [ceil((epoch_time(right) - epoch_time(left)) * max_route_time_factor)]:
    never below the time budget, less than one second above it, and 0 when
    the two measurements have the same time stamp. *)
Theorem time_ceiling m w lhs rhs w' :
  UpdateRoute D fsp gm m w lhs rhs = Ok w' ->
  exists c,
    expansions w' = expansions w ++ [(lhs, c)]
    /\ arg_max_time c
       = ceil ((epoch_time (gm (time rhs)) - epoch_time (gm (time lhs)))
               * max_route_time_factor_ m)
    /\ (epoch_time (gm (time rhs)) - epoch_time (gm (time lhs)))
         * max_route_time_factor_ m <= arg_max_time c
    /\ arg_max_time c
       < (epoch_time (gm (time rhs)) - epoch_time (gm (time lhs)))
         * max_route_time_factor_ m + 1
    /\ (epoch_time (gm (time rhs)) = epoch_time (gm (time lhs)) ->
        arg_max_time c = 0).
Proof.
  intro H. destruct (UpdateRoute_call _ _ _ _ _ H)
    as (left & right & edgelabel & _ & _ & _ & He).
  eexists. split; [exact He|].
  cbn [expander_call arg_max_time]. unfold ClockDistance.
  split; [reflexivity|]. split; [apply ceil_ge|]. split; [apply ceil_lt|].
  intros ->. rewrite Rminus_diag, Rmult_0_l. apply ceil_0.
Qed.

(** The capacity of the label set is [max(distance ceiling, 1)]: never below
    the ceiling given to the expander, equal to it from 1 on, and the
    ceiling is never below the clamped distance.  A breakage distance that
    is not positive gives a ceiling that is not positive and the capacity
    1. *)
Theorem capacity_covers_ceiling m w lhs rhs w' :
  UpdateRoute D fsp gm m w lhs rhs = Ok w' ->
  exists c,
    expansions w' = expansions w ++ [(lhs, c)]
    /\ max_cost (arg_labelset c) = std_max (arg_max_dist c) 1
    /\ arg_max_dist c <= max_cost (arg_labelset c)
    /\ (1 <= arg_max_dist c -> max_cost (arg_labelset c) = arg_max_dist c)
    /\ std_min (GreatCircleDistance D (gm (time lhs)) (gm (time rhs))
                * max_route_distance_factor_ m)
               (breakage_distance_ m) <= arg_max_dist c
    /\ (breakage_distance_ m <= 0 ->
        arg_max_dist c <= 0 /\ max_cost (arg_labelset c) = 1).
Proof.
  intro H. destruct (UpdateRoute_call _ _ _ _ _ H)
    as (left & right & edgelabel & _ & _ & _ & He).
  eexists. split; [exact He|].
  cbn [expander_call arg_max_dist arg_labelset max_cost].
  split; [reflexivity|]. split; [apply std_max_ge_l|]. split.
  { intro H1. unfold std_max. destruct (Rlt_dec _ 1); [lra|reflexivity]. }
  split; [apply ceil_ge|].
  intro Hb.
  assert (Hc : ceil (std_min (GreatCircleDistance D (gm (time lhs)) (gm (time rhs))
                              * max_route_distance_factor_ m)
                             (breakage_distance_ m)) <= 0).
  { rewrite <- ceil_0. apply ceil_le.
    eapply Rle_trans; [apply std_min_le_r|exact Hb]. }
  split; [exact Hc|]. unfold std_max. destruct (Rlt_dec _ 1); lra.
Qed.

(** With a valid and routed predecessor the expansion is seeded with the
    label by which the predecessor has reached the left state, null when it
    has not reached it. *)
Theorem edgelabel_of_predecessor m w lhs rhs left right prev prev_state edgelabel :
  subscript (get_column w (time lhs)) (id lhs) = Ok left ->
  subscript (get_column w (time rhs)) (id lhs) = Ok right ->
  Predecessor w (stateid left) = Some prev ->
  state_of w prev = Ok prev_state ->
  routed prev_state = true ->
  last_label prev_state left = Ok edgelabel ->
  exists w' c,
    UpdateRoute D fsp gm m w lhs rhs = Ok w'
    /\ expansions w' = expansions w ++ [(lhs, c)]
    /\ arg_edgelabel c = edgelabel.
Proof.
  intros Hl Hr Hp Hs Hrt Hll.
  assert (Hel : prepare_edgelabel w left = Ok edgelabel).
  { unfold prepare_edgelabel. rewrite Hp. unfold state_of in Hs. rewrite Hs.
    cbn [bind]. rewrite Hrt. exact Hll. }
  destruct (UpdateRoute_returns m w lhs rhs left right edgelabel Hl Hr Hel)
    as (w' & Hu & He).
  exists w'. eexists. split; [exact Hu|]. split; [exact He|]. reflexivity.
Qed.

(** A fault of [UpdateRoute] is a fault of the preparation of the edge
    label. *)
Lemma UpdateRoute_Throw m w lhs rhs left right e :
  subscript (get_column w (time lhs)) (id lhs) = Ok left ->
  subscript (get_column w (time rhs)) (id lhs) = Ok right ->
  (UpdateRoute D fsp gm m w lhs rhs = Throw e
   <-> prepare_edgelabel w left = Throw e).
Proof.
  intros Hl Hr. unfold UpdateRoute. rewrite Hl, Hr. cbn [bind].
  destruct (prepare_edgelabel w left) as [el|e'|]; cbn [bind].
  - destruct (fsp _). split; discriminate.
  - split; intro H; injection H as <-; reflexivity.
  - split; discriminate.
Qed.

Lemma prepare_edgelabel_logic_error w left e :
  prepare_edgelabel w left = Throw e -> exists what, e = logic_error what.
Proof.
  unfold prepare_edgelabel.
  destruct (Predecessor w (stateid left)) as [prev|]; [|discriminate].
  destruct (subscript (get_column w (time prev)) (id prev))
    as [prev_state| |] eqn:Hp; cbn [bind].
  - destruct (routed prev_state); cbn [negb].
    + intro H. now apply last_label_no_Throw in H.
    + intro H; injection H as <-. eexists; reflexivity.
  - now apply subscript_no_Throw in Hp.
  - discriminate.
Qed.

End Route.

(** ** The cost functor *)

Section Functor.

Variable D : PointLL -> PointLL -> R.
Variable fsp : ExpanderCall -> list (nat * nat) * LabelSet.
Variable gm : nat -> Measurement.

(** After a returning [UpdateRoute] the left state is routed. *)
Lemma UpdateRoute_routed m w lhs rhs w' :
  UpdateRoute D fsp gm m w lhs rhs = Ok w' ->
  exists left c,
    state_of w lhs = Ok left
    /\ expansions w' = expansions w ++ [(lhs, c)]
    /\ (exists stateids results ls,
          w' = set_state (log_expansion w lhs c) (time lhs) (id lhs)
                 (SetRoute left stateids results ls))
    /\ exists left', state_of w' lhs = Ok left' /\ routed left' = true.
Proof.
  intro H. apply UpdateRoute_Ok in H.
  destruct H as (left & right & edgelabel & Hl & Hr & Hel & ->).
  exists left. eexists. split; [exact Hl|]. split; [reflexivity|].
  split; [do 3 eexists; reflexivity|].
  eexists. split.
  - unfold state_of. eapply subscript_set_state_same. exact Hl.
  - reflexivity.
Qed.

(** The lookup on a routed left state reads the store and leaves it. *)
Lemma lookup_label_routed m w lhs rhs left :
  state_of w lhs = Ok left -> routed left = true ->
  lookup_label D fsp gm m w lhs rhs
  = (right <- subscript (get_column w (time rhs)) (id lhs) ;;
     label <- last_label left right ;;
     Ok (label, w)).
Proof.
  unfold state_of, lookup_label. intros Hl Hr. rewrite Hl. cbn [bind].
  destruct (subscript (get_column w (time rhs)) (id lhs)) as [right| |] eqn:E;
    cbn [bind]; try reflexivity.
  rewrite Hr. cbn [negb bind]. rewrite Hl. cbn [bind]. rewrite E. reflexivity.
Qed.

(** A returning lookup has either found the left state routed and left the
    store, or routed it; the left state is routed afterwards. *)
Lemma lookup_label_Ok m w lhs rhs label w' :
  lookup_label D fsp gm m w lhs rhs = Ok (label, w') ->
  exists left,
    state_of w lhs = Ok left
    /\ ((routed left = true /\ w' = w)
        \/ (routed left = false /\ UpdateRoute D fsp gm m w lhs rhs = Ok w'))
    /\ exists left',
         state_of w' lhs = Ok left' /\ routed left' = true
         /\ lookup_label D fsp gm m w' lhs rhs = Ok (label, w').
Proof.
  intro H. unfold state_of.
  destruct (subscript (get_column w (time lhs)) (id lhs)) as [left| |] eqn:Hl;
    try (unfold lookup_label in H; rewrite Hl in H; discriminate).
  exists left. split; [reflexivity|].
  destruct (routed left) eqn:Hr.
  - assert (Hw : w' = w).
    { rewrite (lookup_label_routed m w lhs rhs left Hl Hr) in H.
      destruct (subscript (get_column w (time rhs)) (id lhs)); try discriminate.
      cbn [bind] in H. destruct (last_label left a); try discriminate.
      cbn [bind] in H. congruence. }
    subst w'. split; [left; auto|]. exists left. auto.
  - unfold lookup_label in H. rewrite Hl in H. cbn [bind] in H.
    destruct (subscript (get_column w (time rhs)) (id lhs)) as [right| |];
      try discriminate.
    cbn [bind] in H. rewrite Hr in H. cbn [negb] in H.
    destruct (UpdateRoute D fsp gm m w lhs rhs) as [w1| |] eqn:Hu;
      try discriminate.
    cbn [bind] in H.
    destruct (UpdateRoute_routed _ _ _ _ _ Hu)
      as (left0 & c & _ & _ & _ & left' & Hl' & Hr').
    assert (Hw : w1 = w').
    { unfold state_of in Hl'. rewrite Hl' in H. cbn [bind] in H.
      destruct (subscript (get_column w1 (time rhs)) (id lhs)); try discriminate.
      cbn [bind] in H. destruct (last_label left' a); try discriminate.
      cbn [bind] in H. congruence. }
    subst w1. split; [right; auto|]. exists left'.
    split; [exact Hl'|]. split; [exact Hr'|].
    rewrite (lookup_label_routed m w' lhs rhs left' Hl' Hr').
    unfold state_of in Hl'. rewrite Hl' in H. exact H.
Qed.

(** The right state that the functor consults is the state at the index of
    [lhs] in the column of [rhs]. *)
Lemma consulted_right_state m w lhs rhs label w' :
  lookup_label D fsp gm m w lhs rhs = Ok (label, w') ->
  exists left right,
    state_of w' lhs = Ok left
    /\ state_of w' {| time := time rhs; id := id lhs |} = Ok right
    /\ last_label left right = Ok label.
Proof.
  intro H.
  destruct (lookup_label_Ok _ _ _ _ _ _ H) as (_ & _ & _ & left & Hl & Hr & H').
  rewrite (lookup_label_routed m w' lhs rhs left Hl Hr) in H'.
  exists left. unfold state_of; cbn [time id].
  destruct (subscript (get_column w' (time rhs)) (id lhs)) as [right| |];
    try discriminate.
  exists right. split; [exact Hl|]. split; [reflexivity|].
  cbn [bind] in H'. destruct (last_label left right); try discriminate.
  cbn [bind] in H'. congruence.
Qed.

Lemma TransitionCost_Ok m w lhs rhs v w' :
  TransitionCost D fsp gm m w lhs rhs = Ok (v, w') <->
  exists label,
    lookup_label D fsp gm m w lhs rhs = Ok (label, w')
    /\ v = cost_of_label D gm m lhs rhs label.
Proof.
  unfold TransitionCost.
  destruct (lookup_label D fsp gm m w lhs rhs) as [[label w1]| |]; cbn [bind fst snd].
  - split.
    + intro H; injection H as <- <-. eauto.
    + intros (l & H & ->). injection H as <- <-. reflexivity.
  - split; [discriminate|]. intros (l & H & _); discriminate.
  - split; [discriminate|]. intros (l & H & _); discriminate.
Qed.

Lemma cost_of_label_nonneg beta bd df tf tpf m lhs rhs l :
  construct beta bd df tf tpf = Ok m ->
  0 <= turn_cost l ->
  0 <= cost_of_label D gm m lhs rhs (Some l).
Proof.
  intros Hc Ht. destruct (construct_table _ _ _ _ _ _ Hc) as (Hb & _ & _ & Hi & _).
  cbn [cost_of_label]. unfold CalculateTransitionCost. rewrite Hi.
  assert (0 < 1 / beta) by (apply Rdiv_lt_0_compat; lra).
  pose proof (Rabs_pos (cost (label_cost l)
                        - GreatCircleDistance D (gm (time lhs)) (gm (time rhs)))).
  pose proof (Rabs_pos (secs (label_cost l)
                        - ClockDistance (gm (time lhs)) (gm (time rhs)))).
  nra.
Qed.

(** The cost of the label that the lookup of the functor yields, whichever
    state it has consulted, is
    [turn_cost + inv_beta * (|route_distance - gc_dist| + |route_time - clk_dist|)]
    with the cost, the seconds and the turn cost of that label, the
    great-circle distance and the clock difference of the two measurements
    and [inv_beta = 1 / beta]; it is not negative when the turn cost of the
    label is not. *)
Lemma cost_of_found_label beta bd df tf tpf m w lhs rhs label w' :
  construct beta bd df tf tpf = Ok m ->
  lookup_label D fsp gm m w lhs rhs = Ok (Some label, w') ->
  exists v,
    TransitionCost D fsp gm m w lhs rhs = Ok (v, w')
    /\ v = turn_cost label
           + 1 / beta
             * (Rabs (cost (label_cost label)
                      - D (lnglat (gm (time lhs))) (lnglat (gm (time rhs))))
                + Rabs (secs (label_cost label)
                        - (epoch_time (gm (time rhs)) - epoch_time (gm (time lhs)))))
    /\ (0 <= turn_cost label -> 0 <= v).
Proof.
  intros Hc Hl. exists (cost_of_label D gm m lhs rhs (Some label)).
  split; [|split].
  - apply TransitionCost_Ok. exists (Some label). auto.
  - destruct (construct_table _ _ _ _ _ _ Hc) as (_ & _ & _ & Hi & _).
    cbn [cost_of_label]. unfold CalculateTransitionCost. now rewrite Hi.
  - now apply (cost_of_label_nonneg beta bd df tf tpf).
Qed.

(** With respect to the state that the functor consults the sentinel is
    sound: the cost is -1.0 when its lookup yields no label and the value
    computed from the label when it yields one, a value that is not -1.0
    when the turn cost of the label is not negative. *)
Lemma sentinel_iff_no_label beta bd df tf tpf m w lhs rhs label w' :
  construct beta bd df tf tpf = Ok m ->
  lookup_label D fsp gm m w lhs rhs = Ok (label, w') ->
  (forall l, label = Some l -> 0 <= turn_cost l) ->
  (exists left, state_of w' lhs = Ok left /\ routed left = true)
  /\ exists v,
       TransitionCost D fsp gm m w lhs rhs = Ok (v, w')
       /\ v = cost_of_label D gm m lhs rhs label
       /\ (v = -1 <-> label = None).
Proof.
  intros Hc Hl Ht. split.
  - destruct (lookup_label_Ok _ _ _ _ _ _ Hl) as (_ & _ & _ & left' & H1 & H2 & _).
    eauto.
  - exists (cost_of_label D gm m lhs rhs label). split; [|split].
    + apply TransitionCost_Ok. eauto.
    + reflexivity.
    + destruct label as [l|].
      * pose proof (cost_of_label_nonneg beta bd df tf tpf m lhs rhs l Hc
                      (Ht l eq_refl)).
        split; [lra|discriminate].
      * split; reflexivity.
Qed.

(** *** Faults, bounds and the frame of the functor *)

Lemma lookup_label_Throw m w lhs rhs left right e :
  subscript (get_column w (time lhs)) (id lhs) = Ok left ->
  subscript (get_column w (time rhs)) (id lhs) = Ok right ->
  (lookup_label D fsp gm m w lhs rhs = Throw e
   <-> routed left = false /\ prepare_edgelabel w left = Throw e).
Proof.
  intros Hl Hr. destruct (routed left) eqn:Hrt.
  - rewrite (lookup_label_routed m w lhs rhs left Hl Hrt). rewrite Hr.
    cbn [bind]. split; [|intros [H _]; discriminate].
    intro H. exfalso.
    destruct (last_label left right) as [l|e'|] eqn:E; try discriminate.
    now apply last_label_no_Throw in E.
  - rewrite <- (UpdateRoute_Throw D fsp gm m w lhs rhs left right e Hl Hr).
    unfold lookup_label. rewrite Hl, Hr. cbn [bind]. rewrite Hrt. cbn [negb].
    destruct (UpdateRoute D fsp gm m w lhs rhs) as [w1|e'|] eqn:Hu; cbn [bind].
    + split; [|intros [_ H]; discriminate]. intro H. exfalso.
      destruct (subscript (get_column w1 (time lhs)) (id lhs)) as [l1| |] eqn:E1;
        [|now apply subscript_no_Throw in E1|discriminate].
      cbn [bind] in H.
      destruct (subscript (get_column w1 (time rhs)) (id lhs)) as [r1| |] eqn:E2;
        [|now apply subscript_no_Throw in E2|discriminate].
      cbn [bind] in H.
      destruct (last_label l1 r1) as [l|e'|] eqn:E3; try discriminate.
      now apply last_label_no_Throw in E3.
    + split; [intro H; injection H as <-; auto|].
      intros [_ H]; injection H as <-; reflexivity.
    + split; [discriminate|intros [_ H]; discriminate].
Qed.

Lemma TransitionCost_Throw m w lhs rhs e :
  TransitionCost D fsp gm m w lhs rhs = Throw e
  <-> lookup_label D fsp gm m w lhs rhs = Throw e.
Proof.
  unfold TransitionCost.
  destruct (lookup_label D fsp gm m w lhs rhs) as [[l w1]|e'|]; cbn [bind].
  - split; discriminate.
  - split; intro H; injection H as <-; reflexivity.
  - split; discriminate.
Qed.

(** The cost functor raises the logic error exactly when the left state is
    not routed and its predecessor is valid and not routed; it raises no
    other error, and none at all on a routed left state. *)
Theorem cost_faults_iff m w lhs rhs left right :
  subscript (get_column w (time lhs)) (id lhs) = Ok left ->
  subscript (get_column w (time rhs)) (id lhs) = Ok right ->
  ((exists what, TransitionCost D fsp gm m w lhs rhs = Throw (logic_error what))
   <-> (routed left = false
        /\ exists prev prev_state,
             Predecessor w (stateid left) = Some prev
             /\ state_of w prev = Ok prev_state
             /\ routed prev_state = false))
  /\ (forall e, TransitionCost D fsp gm m w lhs rhs = Throw e ->
                exists what, e = logic_error what)
  /\ (routed left = true ->
      forall e, TransitionCost D fsp gm m w lhs rhs <> Throw e).
Proof.
  intros Hl Hr. split; [|split].
  - rewrite <- prepare_edgelabel_Throw. split.
    + intros [what H]. apply TransitionCost_Throw in H.
      apply (lookup_label_Throw m w lhs rhs left right _ Hl Hr) in H.
      destruct H as [H1 H2]. eauto.
    + intros [H1 [what H2]]. exists what. apply TransitionCost_Throw.
      apply (lookup_label_Throw m w lhs rhs left right _ Hl Hr). auto.
  - intros e H. apply TransitionCost_Throw in H.
    apply (lookup_label_Throw m w lhs rhs left right _ Hl Hr) in H.
    destruct H as [_ H]. now apply prepare_edgelabel_logic_error in H.
  - intros Hrt e H. apply TransitionCost_Throw in H.
    apply (lookup_label_Throw m w lhs rhs left right _ Hl Hr) in H.
    destruct H as [H _]. congruence.
Qed.

(** A right column that has no state at the index of [lhs] is read outside
    its bounds, whatever the index of [rhs] is. *)
Theorem short_right_column m w lhs rhs :
  (length (get_column w (time rhs)) <= id lhs)%nat ->
  TransitionCost D fsp gm m w lhs rhs = Undefined
  /\ UpdateRoute D fsp gm m w lhs rhs = Undefined.
Proof.
  intro H.
  assert (Hr : subscript (get_column w (time rhs)) (id lhs) = Undefined).
  { unfold subscript. now rewrite (proj2 (nth_error_None _ _) H). }
  unfold TransitionCost, lookup_label, UpdateRoute.
  destruct (subscript (get_column w (time lhs)) (id lhs)) as [left| |] eqn:Hl;
    cbn [bind].
  - rewrite Hr. split; reflexivity.
  - now apply subscript_no_Throw in Hl.
  - split; reflexivity.
Qed.

(** A returning call of the functor writes to the left state only: the
    predecessors, the shape of the columns and every other state stay, the
    left state keeps its id and its candidate and is routed, and the log of
    expansions is extended at its end. *)
Theorem cost_writes_left_state_only m w lhs rhs v w' :
  TransitionCost D fsp gm m w lhs rhs = Ok (v, w') ->
  Predecessor w' = Predecessor w
  /\ (forall t i, t <> time lhs \/ i <> id lhs ->
        subscript (get_column w' t) i = subscript (get_column w t) i)
  /\ (forall t, length (get_column w' t) = length (get_column w t))
  /\ (exists left left',
        state_of w lhs = Ok left /\ state_of w' lhs = Ok left'
        /\ stateid left' = stateid left /\ candidate left' = candidate left
        /\ routed left' = true)
  /\ (exists l, expansions w' = expansions w ++ l /\ (length l <= 1)%nat).
Proof.
  intro H. apply TransitionCost_Ok in H. destruct H as (label & H & _).
  destruct (lookup_label_Ok _ _ _ _ _ _ H)
    as (left & Hl & [[Hrt ->]|[Hrt Hupd]] & _).
  - split; [reflexivity|]. split; [reflexivity|]. split; [reflexivity|].
    split; [exists left, left; auto|].
    exists []. rewrite app_nil_r. auto.
  - apply UpdateRoute_Ok in Hupd.
    destruct Hupd as (left0 & right & edgelabel & Hl0 & Hr & Hel & ->).
    split; [reflexivity|]. split.
    { intros t i Hne.
      apply (subscript_set_state_other (log_expansion w lhs _)).
      destruct Hne; [left|right]; congruence. }
    split.
    { intro t. destruct (Nat.eq_dec (time lhs) t) as [<-|Ht].
      - rewrite get_column_set_state_same. apply length_assign.
      - now rewrite get_column_set_state_other. }
    split.
    { exists left0. eexists. split; [exact Hl0|]. split.
      - unfold state_of. eapply subscript_set_state_same. exact Hl0.
      - repeat split. }
    eexists. split; [reflexivity|]. cbn [length]. lia.
Qed.

(** *** The destinations of a route *)

Lemma StateId_eqb_eq a b : StateId_eqb a b = true <-> a = b.
Proof.
  unfold StateId_eqb. rewrite andb_true_iff, !Nat.eqb_eq.
  destruct a, b; cbn [time id]. split.
  - intros [-> ->]. reflexivity.
  - intro H; injection H; auto.
Qed.

Lemma find_stateid_bind_results s stateids dest results :
  ~ In s stateids ->
  find_stateid s (bind_results stateids dest results) = None.
Proof.
  revert dest; induction stateids as [|a rest IH]; intros dest Hn;
    cbn [bind_results]; [reflexivity|].
  assert (Ha : StateId_eqb a s = false).
  { destruct (StateId_eqb a s) eqn:E; [|reflexivity].
    apply StateId_eqb_eq in E. exfalso. apply Hn. now left. }
  assert (Hrest : ~ In s rest) by (intro; apply Hn; now right).
  destruct (find_dest dest results); cbn [find_stateid];
    [rewrite Ha|]; now apply IH.
Qed.

(** The destinations are the states of the right column that have no
    predecessor. *)
Lemma unreached_states_spec w right_column state :
  In state (unreached_states w right_column) <->
  In state right_column /\ Predecessor w (stateid state) = None.
Proof.
  unfold unreached_states. rewrite filter_In.
  destruct (Predecessor w (stateid state)); cbn [IsValid negb];
    split; intros [H1 H2]; split; auto; discriminate.
Qed.

(** A route binds labels to the destinations only: on the routed left state
    a state that had a predecessor when the route was made has no label. *)
Lemma UpdateRoute_binds_unreached m w lhs rhs w1 :
  UpdateRoute D fsp gm m w lhs rhs = Ok w1 ->
  exists left right left',
    state_of w lhs = Ok left
    /\ subscript (get_column w (time rhs)) (id lhs) = Ok right
    /\ state_of w1 lhs = Ok left' /\ routed left' = true
    /\ (exists results ls,
          left' = SetRoute left
                    (map stateid
                       (unreached_states w (get_column w (time (stateid right)))))
                    results ls)
    /\ forall state,
         IsValid (Predecessor w (stateid state)) = true ->
         last_label left' state = Ok None.
Proof.
  intro H. apply UpdateRoute_Ok in H.
  destruct H as (left & right & edgelabel & Hl & Hr & Hel & ->).
  exists left, right. eexists. split; [exact Hl|]. split; [exact Hr|].
  split; [unfold state_of; eapply subscript_set_state_same; exact Hl|].
  split; [reflexivity|]. split; [do 2 eexists; reflexivity|].
  intros state Hv. unfold last_label. cbn [SetRoute label_idx].
  rewrite find_stateid_bind_results; [reflexivity|].
  rewrite in_map_iff. intros (st & Hst & Hin).
  apply unreached_states_spec in Hin. destruct Hin as [_ Hin].
  rewrite Hst in Hin. rewrite Hin in Hv. discriminate.
Qed.

(** *** Routing once *)

(** A step keeps every routed state as it is. *)
Lemma step_keeps_routed m w w2 s st :
  step D fsp gm m w w2 ->
  state_of w s = Ok st -> routed st = true ->
  state_of w2 s = Ok st.
Proof.
  intros Hstep Hs Hr. destruct Hstep as [w lhs rhs v w' H|w pred].
  - apply TransitionCost_Ok in H. destruct H as (label & H & _).
    destruct (lookup_label_Ok _ _ _ _ _ _ H)
      as (left & Hl & [[_ ->]|[Hu Hupd]] & _); [exact Hs|].
    destruct (UpdateRoute_routed _ _ _ _ _ Hupd)
      as (left0 & c & _ & _ & (ids & res & ls & ->) & _).
    unfold state_of. rewrite subscript_set_state_other; [exact Hs|].
    destruct (Nat.eq_dec (time lhs) (time s)) as [Et|Et]; [|now left].
    destruct (Nat.eq_dec (id lhs) (id s)) as [Ei|Ei]; [|now right].
    exfalso. unfold state_of in Hl, Hs. rewrite Et, Ei in Hl. congruence.
  - exact Hs.
Qed.


Lemma steps_keep_routed m w w2 s st :
  steps D fsp gm m w w2 ->
  state_of w s = Ok st -> routed st = true ->
  state_of w2 s = Ok st.
Proof.
  intros Hsteps Hs Hr. induction Hsteps as [w|w1 w2 w3 _ IH Hstep].
  - exact Hs.
  - eapply step_keeps_routed; eauto.
Qed.




(** *** At most one expansion per left state *)

Lemma expansions_of_log w w' lhs c s :
  expansions w' = expansions w ++ [(lhs, c)] ->
  expansions_of w' s
  = (expansions_of w s + (if StateId_eqb lhs s then 1 else 0))%nat.
Proof.
  unfold expansions_of. intros ->. rewrite filter_app, length_app.
  cbn [filter fst]. now destruct (StateId_eqb lhs s).
Qed.

Lemma step_keeps_routed_once m w w2 :
  step D fsp gm m w w2 -> routed_once w -> routed_once w2.
Proof.
  intros Hstep Hinv s. pose proof Hstep as Hstep0.
  destruct Hstep as [w lhs rhs v w' H|w pred]; [|exact (Hinv s)].
  apply TransitionCost_Ok in H. destruct H as (label & H & _).
  destruct (lookup_label_Ok _ _ _ _ _ _ H)
    as (left & Hl & [[_ ->]|[Hu Hupd]] & left' & Hl' & Hr' & _);
    [exact (Hinv s)|].
  destruct (UpdateRoute_routed _ _ _ _ _ Hupd) as (left0 & c & _ & He & _).
  rewrite (expansions_of_log w w' lhs c s He).
  destruct (StateId_eqb lhs s) eqn:E.
  - apply StateId_eqb_eq in E. subst s. right.
    destruct (Hinv lhs) as [H0|[_ (st & Hst & Hr)]].
    + rewrite H0. split; [reflexivity|]. eauto.
    + rewrite Hl in Hst. congruence.
  - rewrite Nat.add_0_r. destruct (Hinv s) as [H0|[H1 (st & Hst & Hr)]].
    + now left.
    + right. split; [exact H1|]. exists st. split; [|exact Hr].
      now apply (step_keeps_routed m w w' s st Hstep0).
Qed.

(** Over a run that starts with no expansion logged, every left state is
    expanded at most once. *)
Lemma at_most_one_expansion m w w2 s :
  expansions w = [] ->
  steps D fsp gm m w w2 ->
  (expansions_of w2 s <= 1)%nat.
Proof.
  intros He Hsteps.
  assert (Hinv : routed_once w2).
  { induction Hsteps as [w|w1 w2 w3 _ IH Hstep].
    - intro s'. left. unfold expansions_of. now rewrite He.
    - eapply step_keeps_routed_once; eauto. }
  destruct (Hinv s) as [->|[-> _]]; lia.
Qed.

(** By design a later cost is -1.0 when the right state that the functor
    consults had a predecessor at the time of the route. *)
Lemma later_cost_of_reached_state m w lhs rhs w1 w2 r right :
  UpdateRoute D fsp gm m w lhs rhs = Ok w1 ->
  steps D fsp gm m w1 w2 ->
  subscript (get_column w2 (time r)) (id lhs) = Ok right ->
  IsValid (Predecessor w (stateid right)) = true ->
  TransitionCost D fsp gm m w2 lhs r = Ok (-1, w2).
Proof.
  intros Hu Hsteps Hr Hv.
  destruct (UpdateRoute_binds_unreached _ _ _ _ _ Hu)
    as (left & right0 & left' & _ & _ & Hl' & Hr' & _ & Hnone).
  assert (H2 : state_of w2 lhs = Ok left')
    by (eapply steps_keep_routed; eauto).
  unfold TransitionCost.
  rewrite (lookup_label_routed m w2 lhs r left' H2 Hr').
  rewrite Hr. cbn [bind]. rewrite (Hnone right Hv). reflexivity.
Qed.

Lemma filter_none {A : Type} (f : A -> bool) (l : list A) :
  (forall a, In a l -> f a = false) -> filter f l = [].
Proof.
  induction l as [|a l IH]; intro H; cbn [filter]; [reflexivity|].
  rewrite (H a (or_introl eq_refl)). apply IH. intros b Hb. apply H. now right.
Qed.

(** When every state of the right column has a predecessor the expander is
    still called, with the origin as its only location; the route binds no
    label, and every later cost from the left state is -1.0. *)
Theorem route_without_destinations m w lhs rhs right w1 :
  UpdateRoute D fsp gm m w lhs rhs = Ok w1 ->
  subscript (get_column w (time rhs)) (id lhs) = Ok right ->
  (forall st, In st (get_column w (time (stateid right))) ->
              IsValid (Predecessor w (stateid st)) = true) ->
  exists left left' c,
    state_of w lhs = Ok left
    /\ expansions w1 = expansions w ++ [(lhs, c)]
    /\ arg_locations c = [candidate left]
    /\ state_of w1 lhs = Ok left'
    /\ label_idx left' = []
    /\ forall w2 r right',
         steps D fsp gm m w1 w2 ->
         subscript (get_column w2 (time r)) (id lhs) = Ok right' ->
         TransitionCost D fsp gm m w2 lhs r = Ok (-1, w2).
Proof.
  intros Hu Hr Hall. pose proof Hu as Hu0. apply UpdateRoute_Ok in Hu.
  destruct Hu as (left & right0 & edgelabel & Hl & Hr0 & Hel & ->).
  rewrite Hr in Hr0. injection Hr0 as <-.
  assert (Hnone : unreached_states w (get_column w (time (stateid right))) = []).
  { apply filter_none. intros st Hin. now rewrite (Hall st Hin). }
  assert (Hl' : state_of
                  (set_state
                     (log_expansion w lhs
                        (expander_call D gm m w lhs rhs left right edgelabel))
                     (time lhs) (id lhs)
                     (SetRoute left
                        (map stateid
                           (unreached_states w (get_column w (time (stateid right)))))
                        (fst (fsp (expander_call D gm m w lhs rhs left right edgelabel)))
                        (snd (fsp (expander_call D gm m w lhs rhs left right edgelabel)))))
                  lhs
                = Ok (SetRoute left
                        (map stateid
                           (unreached_states w (get_column w (time (stateid right)))))
                        (fst (fsp (expander_call D gm m w lhs rhs left right edgelabel)))
                        (snd (fsp (expander_call D gm m w lhs rhs left right edgelabel))))).
  { unfold state_of. eapply subscript_set_state_same. exact Hl. }
  exists left. eexists. eexists. split; [exact Hl|]. split; [reflexivity|].
  split; [cbn [expander_call arg_locations]; now rewrite Hnone|].
  split; [exact Hl'|].
  split; [cbn [SetRoute label_idx]; now rewrite Hnone|].
  intros w2 r right' Hsteps Hr2.
  pose proof (steps_keep_routed m _ w2 lhs _ Hsteps Hl' eq_refl) as H2.
  unfold TransitionCost.
  rewrite (lookup_label_routed m w2 lhs r _ H2 eq_refl).
  rewrite Hr2. cbn [bind]. unfold last_label. cbn [SetRoute label_idx].
  rewrite Hnone. reflexivity.
Qed.


End Functor.

(** ** The small trace *)

Lemma line_gc :
  GreatCircleDistance line_Distance (line_measurement 0) (line_measurement 1) = 100.
Proof.
  unfold GreatCircleDistance, line_Distance, line_measurement; cbn [lnglat fst INR].
  rewrite Rabs_right; lra.
Qed.

Lemma line_clk :
  ClockDistance (line_measurement 0) (line_measurement 1) = 10.
Proof.
  unfold ClockDistance, line_measurement; cbn [epoch_time INR]. lra.
Qed.

Lemma line_cost_straight :
  cost_of_label line_Distance line_measurement small_model s00 s11
    (Some straight_label) = 0.
Proof.
  cbn [cost_of_label time s00 s11]. rewrite line_gc, line_clk.
  unfold CalculateTransitionCost, straight_label, small_model;
    cbn [turn_cost label_cost cost secs inv_beta_].
  replace (100 - 100) with 0 by lra. replace (10 - 10) with 0 by lra.
  rewrite Rabs_R0. lra.
Qed.

Lemma line_cost_detour :
  cost_of_label line_Distance line_measurement small_model s00 s11
    (Some detour_label) = 32.
Proof.
  cbn [cost_of_label time s00 s11]. rewrite line_gc, line_clk.
  unfold CalculateTransitionCost, detour_label, small_model;
    cbn [turn_cost label_cost cost secs inv_beta_].
  replace (250 - 100) with 150 by lra. replace (20 - 10) with 10 by lra.
  rewrite !Rabs_right by lra. lra.
Qed.

(** C1: with the first column at index 0 and the right state at index 1 the
    functor consults the state (1,0), not the state (1,1) that [rhs]
    identifies: the expander has reached (1,1) only, the left state holds
    the label of (1,1), from which the cost 0 is computed, and the functor
    returns -1. *)
Theorem right_state_read_at_left_index :
  exists w' left right,
    TransitionCost line_Distance (reach_only 2 straight_label) line_measurement
      small_model two_columns s00 s11 = Ok (-1, w')
    /\ state_of w' s00 = Ok left
    /\ state_of w' s11 = Ok right
    /\ last_label left right = Ok (Some straight_label)
    /\ cost_of_label line_Distance line_measurement small_model s00 s11
         (Some straight_label) = 0.
Proof.
  do 3 eexists. split; [reflexivity|]. split; [reflexivity|].
  split; [reflexivity|]. split; [reflexivity|]. exact line_cost_straight.
Qed.

(** C2: the sentinel does not follow the state that [rhs] identifies.  When
    the expander has reached the state (1,1) only, the cost from (0,0) to
    (1,1) is -1 although the routed left state holds a label of (1,1); when
    it has reached the state (1,0) only, that cost is 0, not -1, although
    the left state holds no label of (1,1). *)
Theorem sentinel_read_at_left_index :
  (exists w' left right,
     TransitionCost line_Distance (reach_only 2 straight_label) line_measurement
       small_model two_columns s00 s11 = Ok (-1, w')
     /\ state_of w' s00 = Ok left /\ routed left = true
     /\ state_of w' s11 = Ok right
     /\ last_label left right = Ok (Some straight_label))
  /\ (exists v w' left right,
        TransitionCost line_Distance (reach_only 1 straight_label) line_measurement
          small_model two_columns s00 s11 = Ok (v, w')
        /\ v = 0 /\ v <> -1
        /\ state_of w' s00 = Ok left /\ routed left = true
        /\ state_of w' s11 = Ok right
        /\ last_label left right = Ok None).
Proof.
  split.
  - do 3 eexists. repeat split; reflexivity.
  - exists 0. do 3 eexists. split.
    + apply TransitionCost_Ok. exists (Some straight_label).
      split; [reflexivity|]. symmetry. exact line_cost_straight.
    + split; [reflexivity|]. split; [lra|]. repeat split; reflexivity.
Qed.

(** C3: the cost is not computed from the label found for the state that
    [rhs] identifies.  The expander has reached the state (1,0) by a detour
    and the state (1,1) on the straight line; the left state holds the label
    of (1,1), whose cost by the formula is 0, and the cost from (0,0) to
    (1,1) is 32, the cost of the label of (1,0). *)
Theorem cost_of_label_at_left_index :
  exists w' left right,
    TransitionCost line_Distance (reach_both detour_label straight_label)
      line_measurement small_model two_columns s00 s11 = Ok (32, w')
    /\ state_of w' s00 = Ok left
    /\ state_of w' s11 = Ok right
    /\ last_label left right = Ok (Some straight_label)
    /\ turn_cost straight_label
       + inv_beta_ small_model
         * (Rabs (cost (label_cost straight_label)
                  - GreatCircleDistance line_Distance
                      (line_measurement (time s00)) (line_measurement (time s11)))
            + Rabs (secs (label_cost straight_label)
                    - ClockDistance (line_measurement (time s00))
                        (line_measurement (time s11))))
       = 0.
Proof.
  do 3 eexists. split.
  - apply TransitionCost_Ok. exists (Some detour_label).
    split; [reflexivity|]. symmetry. exact line_cost_detour.
  - split; [reflexivity|]. split; [reflexivity|]. split; [reflexivity|].
    exact line_cost_straight.
Qed.

(** C6, as stated, fails: with the breakage distance 50.5 and measurements
    100 m apart the ceiling passed to the expander is 51. *)
Lemma distance_ceiling_above_breakage :
  exists w' c,
    UpdateRoute line_Distance (reach_all straight_label) line_measurement
      small_model two_columns s00 s10 = Ok w'
    /\ expansions w' = expansions two_columns ++ [(s00, c)]
    /\ breakage_distance_ small_model = 101 / 2
    /\ arg_max_dist c = 51
    /\ breakage_distance_ small_model < arg_max_dist c.
Proof.
  do 2 eexists. split; [reflexivity|]. split; [reflexivity|].
  split; [reflexivity|].
  assert (H : ceil (std_min (GreatCircleDistance line_Distance (line_measurement 0)
                               (line_measurement 1) * 2) (101 / 2)) = 51).
  { rewrite line_gc. unfold std_min.
    destruct (Rlt_dec (101 / 2) (100 * 2)) as [_|H]; [|lra].
    apply (ceil_eq 51). lra. }
  split; [exact H|].
  cbn [expander_call arg_max_dist small_model breakage_distance_
       max_route_distance_factor_ time s00 s10].
  rewrite H. lra.
Qed.

(** The ceiling of the route of the state (0,0) on the small trace. *)
Lemma distance_ceiling_witness :
  exists w',
    UpdateRoute line_Distance (reach_all straight_label) line_measurement
      small_model two_columns s00 s10 = Ok w'
    /\ exists c,
         expansions w' = expansions two_columns ++ [(s00, c)]
         /\ arg_max_dist c
            = ceil (std_min (GreatCircleDistance line_Distance
                               (line_measurement (time s00))
                               (line_measurement (time s10))
                             * max_route_distance_factor_ small_model)
                            (breakage_distance_ small_model))
         /\ arg_max_dist c <= ceil (breakage_distance_ small_model)
         /\ arg_max_dist c < breakage_distance_ small_model + 1.
Proof.
  eexists. split; [reflexivity|].
  exact (distance_ceiling line_Distance (reach_all straight_label)
           line_measurement small_model two_columns s00 s10 _ eq_refl).
Defined.

(** Coincident measurements: the great-circle distance is 0, the expander is
    invoked and the capacity is 1. *)
Lemma labelset_capacity_witness :
  GreatCircleDistance line_Distance (still_measurement 0) (still_measurement 1) = 0
  /\ exists w' c,
       UpdateRoute line_Distance (reach_all straight_label) still_measurement
         small_model two_columns s00 s10 = Ok w'
       /\ expansions w' = expansions two_columns ++ [(s00, c)]
       /\ max_cost (arg_labelset c)
          = std_max (ceil (std_min (GreatCircleDistance line_Distance
                                      (still_measurement (time s00))
                                      (still_measurement (time s10))
                                    * max_route_distance_factor_ small_model)
                                   (breakage_distance_ small_model)))
                    1
       /\ 1 <= max_cost (arg_labelset c)
       /\ (GreatCircleDistance line_Distance (still_measurement (time s00))
             (still_measurement (time s10)) = 0 ->
           max_cost (arg_labelset c) = 1).
Proof.
  split.
  - unfold GreatCircleDistance, line_Distance, still_measurement; cbn [lnglat fst].
    replace (0 - 0) with 0 by lra. apply Rabs_R0.
  - exact (labelset_capacity line_Distance (reach_all straight_label)
             still_measurement small_model two_columns s00 s10
             (fresh_state 0 0) (fresh_state 1 0) None eq_refl eq_refl eq_refl).
Defined.

(** The route of the state (1,0), whose predecessor (0,0) is not routed. *)
Lemma predecessor_must_be_routed_witness :
  ((exists what,
      UpdateRoute line_Distance (reach_all straight_label) line_measurement
        small_model unrouted_predecessor s10 s20 = Throw (logic_error what))
   <-> (exists prev prev_state,
          Predecessor unrouted_predecessor (stateid (fresh_state 1 0)) = Some prev
          /\ state_of unrouted_predecessor prev = Ok prev_state
          /\ routed prev_state = false))
  /\ (Predecessor unrouted_predecessor (stateid (fresh_state 1 0)) = None ->
      exists w' c,
        UpdateRoute line_Distance (reach_all straight_label) line_measurement
          small_model unrouted_predecessor s10 s20 = Ok w'
        /\ expansions w' = expansions unrouted_predecessor ++ [(s10, c)]
        /\ arg_edgelabel c = None).
Proof.
  exact (predecessor_must_be_routed line_Distance (reach_all straight_label)
           line_measurement small_model unrouted_predecessor s10 s20
           (fresh_state 1 0) (fresh_state 2 0) eq_refl eq_refl).
Defined.

(** The fault of scenario S5, and the null edge label of a state without a
    predecessor. *)
Example unrouted_predecessor_faults :
  exists what,
    UpdateRoute line_Distance (reach_all straight_label) line_measurement
      small_model unrouted_predecessor s10 s20 = Throw (logic_error what).
Proof. eexists. reflexivity. Qed.

Example no_predecessor_null_edgelabel :
  exists w' c,
    UpdateRoute line_Distance (reach_all straight_label) line_measurement
      small_model two_columns s00 s10 = Ok w'
    /\ expansions w' = [(s00, c)] /\ arg_edgelabel c = None.
Proof. do 2 eexists. repeat split; reflexivity. Qed.


(** C10: the state (1,1) has the predecessor (0,1) when the state (0,0) is
    routed, so the route of (0,0) binds the state (1,0) only; the later cost
    from (0,0) to (1,1) is all the same read at the state (1,0) and is 0,
    not -1. *)
Theorem reached_state_answered :
  exists v1 w1,
    TransitionCost line_Distance (reach_all straight_label) line_measurement
      small_model two_columns s01 s11 = Ok (v1, w1)
    /\ let w2 := {| columns := columns w1;
                    Predecessor := fun s => if StateId_eqb s s11 then Some s01 else None;
                    expansions := expansions w1 |} in
       Predecessor w2 s11 = Some s01
       /\ exists v w3 left,
            TransitionCost line_Distance (reach_all straight_label) line_measurement
              small_model w2 s00 s11 = Ok (v, w3)
            /\ v = 0
            /\ state_of w3 s00 = Ok left
            /\ label_idx left = [(s10, 0%nat)]
            /\ TransitionCost line_Distance (reach_all straight_label) line_measurement
                 small_model w3 s00 s11 = Ok (v, w3).
Proof.
  do 2 eexists. split; [reflexivity|]. cbv zeta. split; [reflexivity|].
  do 3 eexists. split; [reflexivity|].
  split; [exact line_cost_straight|]. repeat split; reflexivity.
Qed.

(** ** More on the small trace *)

(** Measurements with one time stamp: the time ceiling is 0. *)
Lemma time_ceiling_witness :
  epoch_time (instant_measurement (time s10))
  = epoch_time (instant_measurement (time s00))
  /\ exists w',
       UpdateRoute line_Distance (reach_all straight_label) instant_measurement
         small_model two_columns s00 s10 = Ok w'
       /\ exists c,
            expansions w' = expansions two_columns ++ [(s00, c)]
            /\ arg_max_time c
               = ceil ((epoch_time (instant_measurement (time s10))
                        - epoch_time (instant_measurement (time s00)))
                       * max_route_time_factor_ small_model)
            /\ (epoch_time (instant_measurement (time s10))
                - epoch_time (instant_measurement (time s00)))
               * max_route_time_factor_ small_model <= arg_max_time c
            /\ arg_max_time c
               < (epoch_time (instant_measurement (time s10))
                  - epoch_time (instant_measurement (time s00)))
                 * max_route_time_factor_ small_model + 1
            /\ (epoch_time (instant_measurement (time s10))
                = epoch_time (instant_measurement (time s00)) ->
                arg_max_time c = 0).
Proof.
  split; [reflexivity|]. eexists. split; [reflexivity|].
  exact (time_ceiling line_Distance (reach_all straight_label)
           instant_measurement small_model two_columns s00 s10 _ eq_refl).
Defined.

(** A negative breakage distance: the ceiling is not positive, the capacity
    is 1. *)
Lemma capacity_covers_ceiling_witness :
  exists w',
    UpdateRoute line_Distance (reach_all straight_label) line_measurement
      negative_breakage_model two_columns s00 s10 = Ok w'
    /\ exists c,
         expansions w' = expansions two_columns ++ [(s00, c)]
         /\ max_cost (arg_labelset c) = std_max (arg_max_dist c) 1
         /\ arg_max_dist c <= max_cost (arg_labelset c)
         /\ (1 <= arg_max_dist c -> max_cost (arg_labelset c) = arg_max_dist c)
         /\ std_min (GreatCircleDistance line_Distance
                       (line_measurement (time s00)) (line_measurement (time s10))
                     * max_route_distance_factor_ negative_breakage_model)
                    (breakage_distance_ negative_breakage_model)
            <= arg_max_dist c
         /\ (breakage_distance_ negative_breakage_model <= 0 ->
             arg_max_dist c <= 0 /\ max_cost (arg_labelset c) = 1).
Proof.
  eexists. split; [reflexivity|].
  exact (capacity_covers_ceiling line_Distance (reach_all straight_label)
           line_measurement negative_breakage_model two_columns s00 s10 _ eq_refl).
Defined.

(** The route of the state (1,0) after its predecessor (0,0) has been
    routed: the edge label is the label by which (0,0) has reached (1,0). *)
Lemma edgelabel_of_predecessor_witness :
  exists w' c,
    UpdateRoute line_Distance (reach_all straight_label) line_measurement
      small_model routed_predecessor s10 s20 = Ok w'
    /\ expansions w' = expansions routed_predecessor ++ [(s10, c)]
    /\ arg_edgelabel c = Some straight_label.
Proof.
  refine (edgelabel_of_predecessor line_Distance (reach_all straight_label)
            line_measurement small_model routed_predecessor s10 s20
            (fresh_state 1 0) (fresh_state 2 0) s00 _ (Some straight_label)
            eq_refl eq_refl eq_refl eq_refl eq_refl eq_refl).
Defined.

(** The cost from the state (1,0), whose predecessor (0,0) is not routed. *)
Lemma cost_faults_iff_witness :
  ((exists what,
      TransitionCost line_Distance (reach_all straight_label) line_measurement
        small_model unrouted_predecessor s10 s20 = Throw (logic_error what))
   <-> (routed (fresh_state 1 0) = false
        /\ exists prev prev_state,
             Predecessor unrouted_predecessor (stateid (fresh_state 1 0)) = Some prev
             /\ state_of unrouted_predecessor prev = Ok prev_state
             /\ routed prev_state = false))
  /\ (forall e,
        TransitionCost line_Distance (reach_all straight_label) line_measurement
          small_model unrouted_predecessor s10 s20 = Throw e ->
        exists what, e = logic_error what)
  /\ (routed (fresh_state 1 0) = true ->
      forall e,
        TransitionCost line_Distance (reach_all straight_label) line_measurement
          small_model unrouted_predecessor s10 s20 <> Throw e).
Proof.
  exact (cost_faults_iff line_Distance (reach_all straight_label)
           line_measurement small_model unrouted_predecessor s10 s20
           (fresh_state 1 0) (fresh_state 2 0) eq_refl eq_refl).
Defined.

(** The cost from (1,1) to (2,0): the third column has one state. *)
Lemma short_right_column_witness :
  state_of three_columns s20 = Ok (fresh_state 2 0)
  /\ TransitionCost line_Distance (reach_all straight_label) line_measurement
       small_model three_columns s11 s20 = Undefined
  /\ UpdateRoute line_Distance (reach_all straight_label) line_measurement
       small_model three_columns s11 s20 = Undefined.
Proof.
  split; [reflexivity|].
  apply (short_right_column line_Distance (reach_all straight_label)
           line_measurement small_model three_columns s11 s20).
  cbn. lia.
Defined.

(** The first cost from the state (0,0) on the small trace. *)
Lemma cost_writes_left_state_only_witness :
  exists v w',
    TransitionCost line_Distance (reach_all straight_label) line_measurement
      small_model two_columns s00 s10 = Ok (v, w')
    /\ Predecessor w' = Predecessor two_columns
    /\ (forall t i, t <> time s00 \/ i <> id s00 ->
          subscript (get_column w' t) i = subscript (get_column two_columns t) i)
    /\ (forall t, length (get_column w' t) = length (get_column two_columns t))
    /\ (exists left left',
          state_of two_columns s00 = Ok left /\ state_of w' s00 = Ok left'
          /\ stateid left' = stateid left /\ candidate left' = candidate left
          /\ routed left' = true)
    /\ (exists l, expansions w' = expansions two_columns ++ l /\ (length l <= 1)%nat).
Proof.
  do 2 eexists. split; [reflexivity|].
  exact (cost_writes_left_state_only line_Distance (reach_all straight_label)
           line_measurement small_model two_columns s00 s10 _ _ eq_refl).
Defined.

(** The route of the state (0,0) when both states of the second column have
    a predecessor. *)
Lemma route_without_destinations_witness :
  exists w1,
    UpdateRoute line_Distance (reach_all straight_label) line_measurement
      small_model all_reached s00 s10 = Ok w1
    /\ exists left left' c,
         state_of all_reached s00 = Ok left
         /\ expansions w1 = expansions all_reached ++ [(s00, c)]
         /\ arg_locations c = [candidate left]
         /\ state_of w1 s00 = Ok left'
         /\ label_idx left' = []
         /\ forall w2 r right',
              steps line_Distance (reach_all straight_label) line_measurement
                small_model w1 w2 ->
              subscript (get_column w2 (time r)) (id s00) = Ok right' ->
              TransitionCost line_Distance (reach_all straight_label)
                line_measurement small_model w2 s00 r = Ok (-1, w2).
Proof.
  eexists. split; [reflexivity|].
  apply (route_without_destinations line_Distance (reach_all straight_label)
           line_measurement small_model all_reached s00 s10 (fresh_state 1 0)
           _ eq_refl eq_refl).
  intros st [<-|[<-|[]]]; reflexivity.
Defined.

(** * The common command line arguments: verification *)

Lemma std_max_u32_max a b : std_max_u32 a b = N.max a b.
Proof.
  unfold std_max_u32. destruct (N.ltb_spec a b); lia.
Qed.

(** What a returning [configure_from] has done. *)
Lemma configure_from_Returned env program result log use_threads source p b p' :
  configure_from env program result log use_threads source p = (Returned b, p') ->
  b = true
  /\ exists conf,
       configure env source (global p) = inl (global p')
       /\ config env (global p') = inl conf
       /\ stdout p' = stdout p
       /\ logging p'
          = logging p ++ match get_child_optional env conf log with
                         | Some t => [ToMap env t]
                         | None => []
                         end
       /\ info p'
          = info p
            ++ (if use_threads
                then [("Running " ++ program ++ " with "
                       ++ to_string
                            (std_max_u32 1
                               (if negb (Nat.eqb (count result "concurrency") 0)
                                then as_uint32 result "concurrency"
                                else get_uint32_or env conf "mjolnir.concurrency"
                                       (hardware_concurrency env)))
                       ++ " thread(s).")%string]
                else []).
Proof.
  unfold configure_from, configure_logging_and_threads.
  destruct (configure env source (global p)) as [g|e] eqn:Hc; [|discriminate].
  cbn [set_global global].
  destruct (config env g) as [conf|e] eqn:Hg; [|discriminate].
  destruct use_threads; intro H; injection H as <- <-;
    (split; [reflexivity|]); exists conf;
    destruct (get_child_optional env conf log);
    cbn [LOG_INFO logging_Configure set_global stdout global logging info];
    rewrite ?app_nil_r; repeat split; assumption.
Qed.

Lemma configure_from_no_OptionException env program result log use_threads
      source p what p' :
  configure_from env program result log use_threads source p
  <> (ThrewOptionException what, p').
Proof.
  unfold configure_from, configure_logging_and_threads.
  destruct (configure env source (global p)) as [g|e]; [|discriminate].
  cbn [set_global global].
  destruct (config env g) as [conf|e]; [|discriminate].
  destruct use_threads; discriminate.
Qed.

(** The function returns false exactly when the help or the version is
    asked for, whatever else is on the command line; it has then printed the
    help, or without a request for help the version line, and has left the
    configuration, the logging and the log alone. *)
Theorem returns_false_iff env program help result log use_threads p :
  ((exists p',
      parse_common_args env program help result log use_threads p
      = (Returned false, p'))
   <-> (count result "help" <> 0 \/ count result "version" <> 0)%nat)
  /\ (forall p',
        parse_common_args env program help result log use_threads p
        = (Returned false, p') ->
        global p' = global p /\ logging p' = logging p /\ info p' = info p
        /\ stdout p'
           = (stdout p
              ++ (if Nat.eqb (count result "help") 0
                  then program ++ " " ++ VALHALLA_VERSION env ++ newline
                  else help ++ newline))%string).
Proof.
  unfold parse_common_args.
  destruct (Nat.eqb_spec (count result "help") 0) as [Hh|Hh]; cbn [negb].
  - destruct (Nat.eqb_spec (count result "version") 0) as [Hv|Hv]; cbn [negb].
    + assert (Hno : forall source p',
                configure_from env program result log use_threads source p
                <> (Returned false, p')).
      { intros source p' H. apply configure_from_Returned in H.
        destruct H as [H _]. discriminate. }
      destruct (negb (Nat.eqb (count result "inline-config") 0)).
      * split; [split|].
        -- intros [p' H]. now apply Hno in H.
        -- intros [H|H]; contradiction.
        -- intros p' H. now apply Hno in H.
      * destruct (negb (Nat.eqb (count result "config") 0)
                  && is_regular_file env (as_string result "config")).
        -- split; [split|].
           ++ intros [p' H]. now apply Hno in H.
           ++ intros [H|H]; contradiction.
           ++ intros p' H. now apply Hno in H.
        -- split; [split|].
           ++ intros [p' H]. discriminate.
           ++ intros [H|H]; contradiction.
           ++ intros p' H. discriminate.
    + split; [split|].
      * intros _. now right.
      * intros _. eexists; reflexivity.
      * intros p' H. injection H as <-. repeat split.
  - split; [split|].
    + intros _. now left.
    + intros _. eexists; reflexivity.
    + intros p' H. injection H as <-. repeat split.
Qed.

(** The function throws the option exception exactly when neither the help
    nor the version is asked for, there is no inline configuration, and the
    configuration file is not given or is not a regular file; nothing has
    been printed or configured then, and the message holds the help text. *)
Theorem configuration_required env program help result log use_threads p :
  ((exists what p',
      parse_common_args env program help result log use_threads p
      = (ThrewOptionException what, p'))
   <-> (count result "help" = 0%nat /\ count result "version" = 0%nat
        /\ count result "inline-config" = 0%nat
        /\ (count result "config" = 0%nat
            \/ is_regular_file env (as_string result "config") = false)))
  /\ (forall what p',
        parse_common_args env program help result log use_threads p
        = (ThrewOptionException what, p') ->
        p' = p
        /\ what = ("Configuration is required" ++ newline ++ newline ++ help
                   ++ newline ++ newline)%string).
Proof.
  unfold parse_common_args.
  destruct (Nat.eqb_spec (count result "help") 0) as [Hh|Hh]; cbn [negb].
  2:{ split; [split|]; [intros (what & p' & H); discriminate
                       |intros (H & _); contradiction
                       |intros what p' H; discriminate]. }
  destruct (Nat.eqb_spec (count result "version") 0) as [Hv|Hv]; cbn [negb].
  2:{ split; [split|]; [intros (what & p' & H); discriminate
                       |intros (_ & H & _); contradiction
                       |intros what p' H; discriminate]. }
  destruct (Nat.eqb_spec (count result "inline-config") 0) as [Hi|Hi]; cbn [negb].
  2:{ split; [split|].
      - intros (what & p' & H). now apply configure_from_no_OptionException in H.
      - intros (_ & _ & H & _); contradiction.
      - intros what p' H. now apply configure_from_no_OptionException in H. }
  destruct (Nat.eqb_spec (count result "config") 0) as [Hc|Hc]; cbn [negb andb].
  - split; [split|].
    + intros _. auto.
    + intros _. do 2 eexists; reflexivity.
    + intros what p' H. injection H as <- <-. auto.
  - destruct (is_regular_file env (as_string result "config")) eqn:Hr.
    + split; [split|].
      * intros (what & p' & H). now apply configure_from_no_OptionException in H.
      * intros (_ & _ & _ & [H|H]); [contradiction|discriminate].
      * intros what p' H. now apply configure_from_no_OptionException in H.
    + split; [split|].
      * intros _. auto.
      * intros _. do 2 eexists; reflexivity.
      * intros what p' H. injection H as <- <-. auto.
Qed.

(** A source of the configuration is chosen only without a request for the
    help or the version: the inline configuration when there is one, else
    the configuration file, which has to be a regular file. *)
Lemma parse_common_args_source env program help result log use_threads p b p' :
  parse_common_args env program help result log use_threads p = (Returned b, p') ->
  b = true ->
  count result "help" = 0%nat /\ count result "version" = 0%nat
  /\ (count result "inline-config" <> 0%nat
      \/ (count result "config" <> 0%nat
          /\ is_regular_file env (as_string result "config") = true))
  /\ configure_from env program result log use_threads
       (if negb (Nat.eqb (count result "inline-config") 0)
        then as_string result "inline-config"
        else as_string result "config") p
     = (Returned true, p').
Proof.
  unfold parse_common_args. intros H ->.
  destruct (Nat.eqb_spec (count result "help") 0) as [Hh|Hh]; cbn [negb] in H;
    [|discriminate].
  destruct (Nat.eqb_spec (count result "version") 0) as [Hv|Hv]; cbn [negb] in H;
    [|discriminate].
  split; [exact Hh|]. split; [exact Hv|].
  destruct (Nat.eqb_spec (count result "inline-config") 0) as [Hi|Hi];
    cbn [negb] in H |- *.
  - destruct (Nat.eqb_spec (count result "config") 0) as [Hc|Hc];
      cbn [negb andb] in H; [discriminate|].
    destruct (is_regular_file env (as_string result "config")) eqn:Hr;
      [|discriminate].
    split; [right; auto|exact H].
  - split; [left; exact Hi|exact H].
Qed.

(** When the function returns true it has loaded the configuration, from the
    inline configuration when there is one and else from the configuration
    file, a regular file; it has printed nothing, and it has configured the
    logging exactly when the configuration has the logging node. *)
Theorem returns_true_loads_configuration env program help result log
        use_threads p p' :
  parse_common_args env program help result log use_threads p
  = (Returned true, p') ->
  count result "help" = 0%nat /\ count result "version" = 0%nat
  /\ (count result "inline-config" <> 0%nat
      \/ (count result "config" <> 0%nat
          /\ is_regular_file env (as_string result "config") = true))
  /\ exists conf,
       configure env
         (if negb (Nat.eqb (count result "inline-config") 0)
          then as_string result "inline-config"
          else as_string result "config")
         (global p)
       = inl (global p')
       /\ config env (global p') = inl conf
       /\ stdout p' = stdout p
       /\ logging p'
          = logging p ++ match get_child_optional env conf log with
                         | Some t => [ToMap env t]
                         | None => []
                         end.
Proof.
  intro H.
  destruct (parse_common_args_source _ _ _ _ _ _ _ _ _ H eq_refl)
    as (Hh & Hv & Hsrc & Hcf).
  apply configure_from_Returned in Hcf.
  destruct Hcf as (_ & conf & H1 & H2 & H3 & H4 & _).
  split; [exact Hh|]. split; [exact Hv|]. split; [exact Hsrc|].
  exists conf. auto.
Qed.

(** With threads the function logs one line, with a number of threads that
    is at least 1: the number on the command line when there is one, else
    the number of the configuration, else that of the hardware, each lifted
    to 1 when it is 0.  Without threads it logs nothing. *)
Theorem thread_count env program help result log use_threads p p' :
  parse_common_args env program help result log use_threads p
  = (Returned true, p') ->
  (use_threads = false -> info p' = info p)
  /\ (use_threads = true ->
      exists n,
        info p'
        = info p ++ [("Running " ++ program ++ " with " ++ to_string n
                      ++ " thread(s).")%string]
        /\ (1 <= n)%N
        /\ (count result "concurrency" <> 0%nat ->
            n = N.max 1 (as_uint32 result "concurrency"))
        /\ (count result "concurrency" = 0%nat ->
            exists conf,
              config env (global p') = inl conf
              /\ n = N.max 1
                       match get_uint32 env conf "mjolnir.concurrency" with
                       | Some v => v
                       | None => hardware_concurrency env
                       end)).
Proof.
  intro H.
  destruct (parse_common_args_source _ _ _ _ _ _ _ _ _ H eq_refl)
    as (_ & _ & _ & Hcf).
  apply configure_from_Returned in Hcf.
  destruct Hcf as (_ & conf & _ & Hconf & _ & _ & Hinfo).
  split.
  - intros ->. rewrite Hinfo. apply app_nil_r.
  - intros ->. eexists. split; [exact Hinfo|].
    rewrite std_max_u32_max. split; [lia|]. split.
    + intro Hc. destruct (Nat.eqb_spec (count result "concurrency") 0);
        [contradiction|reflexivity].
    + intro Hc. rewrite Hc. cbn [Nat.eqb negb]. exists conf.
      split; [exact Hconf|reflexivity].
Qed.

(** The command line [--config valhalla.json]. *)
Lemma returns_true_loads_configuration_witness :
  exists p',
    parse_common_args toy_environment "valhalla_service" "usage" config_only
      "logging" true fresh_process = (Returned true, p')
    /\ count config_only "help" = 0%nat /\ count config_only "version" = 0%nat
    /\ (count config_only "inline-config" <> 0%nat
        \/ (count config_only "config" <> 0%nat
            /\ is_regular_file toy_environment (as_string config_only "config")
               = true))
    /\ exists conf,
         configure toy_environment
           (if negb (Nat.eqb (count config_only "inline-config") 0)
            then as_string config_only "inline-config"
            else as_string config_only "config")
           (global fresh_process)
         = inl (global p')
         /\ config toy_environment (global p') = inl conf
         /\ stdout p' = stdout fresh_process
         /\ logging p'
            = logging fresh_process
              ++ match get_child_optional toy_environment conf "logging" with
                 | Some t => [ToMap toy_environment t]
                 | None => []
                 end.
Proof.
  eexists. split; [reflexivity|].
  exact (returns_true_loads_configuration toy_environment "valhalla_service"
           "usage" config_only "logging" true fresh_process _ eq_refl).
Defined.

(** The configuration file gives the concurrency 0 and the command line
    none: one thread. *)
Lemma thread_count_witness :
  exists p',
    parse_common_args toy_environment "valhalla_service" "usage" config_only
      "logging" true fresh_process = (Returned true, p')
    /\ info p' = ["Running valhalla_service with 1 thread(s)."%string]
    /\ (true = false -> info p' = info fresh_process)
    /\ (true = true ->
        exists n,
          info p'
          = info fresh_process
            ++ [("Running " ++ "valhalla_service" ++ " with " ++ to_string n
                 ++ " thread(s).")%string]
          /\ (1 <= n)%N
          /\ (count config_only "concurrency" <> 0%nat ->
              n = N.max 1 (as_uint32 config_only "concurrency"))
          /\ (count config_only "concurrency" = 0%nat ->
              exists conf,
                config toy_environment (global p') = inl conf
                /\ n = N.max 1
                         match get_uint32 toy_environment conf
                                 "mjolnir.concurrency" with
                         | Some v => v
                         | None => hardware_concurrency toy_environment
                         end)).
Proof.
  eexists. split; [reflexivity|]. split; [reflexivity|].
  exact (thread_count toy_environment "valhalla_service" "usage" config_only
           "logging" true fresh_process _ eq_refl).
Defined.

(** The help wins over the version, and a file that is not there is no
    configuration. *)
Example help_before_version :
  parse_common_args toy_environment "valhalla_service" "usage" help_and_version
    "logging" false fresh_process
  = (Returned false, print fresh_process ("usage" ++ newline)).
Proof. reflexivity. Qed.

Example missing_file_is_no_configuration :
  exists what,
    parse_common_args toy_environment "valhalla_service" "usage" config_missing
      "logging" false fresh_process
    = (ThrewOptionException what, fresh_process).
Proof. eexists. reflexivity. Qed.

(** ** Runs on the small trace *)

(** One cost from the state (0,0) on the small trace. *)
Lemma at_most_one_expansion_witness :
  exists v w2,
    TransitionCost line_Distance (reach_all straight_label) line_measurement
      small_model two_columns s00 s10 = Ok (v, w2)
    /\ (expansions_of w2 s00 <= 1)%nat.
Proof.
  assert (H : exists v w2,
            TransitionCost line_Distance (reach_all straight_label)
              line_measurement small_model two_columns s00 s10 = Ok (v, w2))
    by (do 2 eexists; reflexivity).
  destruct H as (v & w2 & H). exists v, w2. split; [exact H|].
  apply (at_most_one_expansion line_Distance (reach_all straight_label)
           line_measurement small_model two_columns w2 s00 eq_refl).
  eapply steps_step; [apply steps_refl|].
  exact (step_cost _ _ _ _ _ _ _ _ _ H).
Defined.

(** Both states of the second column have a predecessor when (0,0) is
    routed: the cost from (0,0) to (1,1) is -1. *)
Lemma later_cost_of_reached_state_witness :
  exists w1,
    UpdateRoute line_Distance (reach_all straight_label) line_measurement
      small_model all_reached s00 s10 = Ok w1
    /\ IsValid (Predecessor all_reached (stateid (fresh_state 1 0))) = true
    /\ TransitionCost line_Distance (reach_all straight_label) line_measurement
         small_model w1 s00 s11 = Ok (-1, w1).
Proof.
  eexists. split; [reflexivity|]. split; [reflexivity|].
  refine (later_cost_of_reached_state line_Distance (reach_all straight_label)
            line_measurement small_model all_reached s00 s10 _ _ s11
            (fresh_state 1 0) eq_refl (steps_refl _ _ _ _ _) eq_refl eq_refl).
Defined.
